(** * The LiteLLM embedder of pgai's vectorizer

    A shallow embedding of [pgai/vectorizer/embedders/litellm.py]: the
    [LiteLLM] embedder class with its four methods ([embed], the cached
    property [_batcher], [_max_chunks_per_batch] and [call_embed_api]).

    Python objects live in a store addressed by naturals, so that the
    per-instance cache written by [cached_property] and the module-level
    flag [litellm.suppress_debug_info] are what they are in the program: one
    slot per object, one flag per process.  Methods are computations in a
    state-and-exception monad over that process state. *)

From stdpp Require Import gmap strings list pretty.
From Stdlib Require Import ZArith Lia.

Set Warnings "-register-all".

Local Open Scope string_scope.
Local Open Scope Z_scope.
Local Open Scope list_scope.

(** ** Python values and exceptions *)

(** The values that may sit behind an [Any] annotation.  A float is kept as
    its IEEE-754 bit pattern: the embedder never computes on one. *)
Inductive PyVal : Type :=
| PyNone
| PyBool (b : bool)
| PyInt (z : Z)
| PyFloat (bits : Z)
| PyStr (s : string)
| PyList (l : list PyVal).

(** Exceptions that can leave the methods of this file. *)
Inductive Exn : Type :=
| UnknownProviderError (custom_llm_provider : string)
    (* raised at litellm.py:83 *)
| KeyError (key : string)
    (* [d["embedding"]] on an entry without that key *)
| TypeError (msg : string)
    (* a keyword passed twice through [**self.extra_options] *)
| InvalidBatchLimit (limit : Z)
    (* the batching engine's rejection of a non-positive limit *)
| ExternalError (tag : string)
    (* anything raised inside the third-party library or the provider *)
| TasksPending
    (* a task group awaited although one of its tasks never completed *)
| DanglingReference (address : nat).
    (* no Python run produces it: a method called on an unallocated address *)

Definition Result (A : Type) : Type := Exn + A.

(** ** The [litellm] library, as far as the embedder sees it *)

Module Litellm.

(** [response.usage] *)
Record Usage : Type := mkUsage {
  prompt_tokens : Z;
  total_tokens : Z
}.

(** One entry of [response["data"]]: a dictionary. *)
Abbreviation DataEntry := (gmap string PyVal).

(** [litellm.EmbeddingResponse] *)
Record EmbeddingResponse : Type := mkEmbeddingResponse {
  data : list DataEntry;
  usage : option Usage
}.

(** The [input] argument of [aembedding]: [str | list[str]]. *)
Inductive Input : Type :=
| InStr (document : string)
| InList (documents : list string).

Definition input_count (i : Input) : nat :=
  match i with
  | InStr _ => 1%nat
  | InList ds => length ds
  end.

(** One call of [litellm.aembedding], with the value of
    [litellm.suppress_debug_info] the library finds when it is called. *)
Record Request : Type := mkRequest {
  req_suppress_debug_info : bool;
  req_model : string;
  req_input : Input;
  req_kwargs : list (string * PyVal)
}.

(** The two entry points of the library used by the embedder.  Provider
    resolution depends on the model name only; the answer to an embedding
    request may depend on every request issued before it.
    [provider_list_notice m] is what the library writes to standard output
    when it cannot resolve [m] and [litellm.suppress_debug_info] is not set:
    the "Provider List" lines of the comment at litellm.py:86-88. *)
Class Api : Type := {
  get_llm_provider :
    string -> Result (string * string * option string * option string);
  provider_list_notice : string -> list string;
  aembedding : list Request -> Request -> Result EmbeddingResponse
}.

End Litellm.

(** ** The declarations imported from [..embeddings] *)

Module Embeddings.

Record Usage : Type := mkUsage {
  prompt_tokens : Z;
  total_tokens : Z
}.

(** [EmbeddingVector]; the annotation [list[float]] is not enforced. *)
Abbreviation EmbeddingVector := PyVal.

Record EmbeddingResponse : Type := mkEmbeddingResponse {
  embeddings : list EmbeddingVector;
  usage : Usage
}.

(** The callable handed to [BatchApiCaller]: the only one this file ever
    builds is the bound method [self.call_embed_api]. *)
Inductive Callable : Type :=
| call_embed_api_of (self : nat).

Record BatchApiCaller : Type := mkBatchApiCaller {
  max_chunks_per_batch : Z;
  api_callable : Callable
}.

End Embeddings.

Import Embeddings.

(** ** Objects and process state *)

(** An instance of class [LiteLLM]: its pydantic fields and the entry that
    [cached_property] writes into the instance dictionary. *)
Record LiteLLM : Type := mkLiteLLM {
  implementation : string;
  model : string;
  api_key_name : option string;
  extra_options : list (string * PyVal);
  _batcher_slot : option BatchApiCaller
}.

Record World : Type := mkWorld {
  suppress_debug_info : bool;          (* litellm.suppress_debug_info *)
  stdout : list string;                (* lines written by print *)
  debug_log : list string;             (* messages given to logger.adebug *)
  resolutions : list string;           (* arguments of get_llm_provider, oldest first *)
  requests : list Litellm.Request;     (* calls of aembedding, oldest first *)
  heap : gmap nat LiteLLM
}.

(** ** The monad of methods *)

Definition M (A : Type) : Type := World -> Result A * World.

Definition ret {A} (a : A) : M A := fun w => (inr a, w).

Definition raise {A} (e : Exn) : M A := fun w => (inl e, w).

Definition bind {A B} (c : M A) (k : A -> M B) : M B :=
  fun w =>
    match c w with
    | (inr a, w') => k a w'
    | (inl e, w') => (inl e, w')
    end.

Notation "x <- c ;; k" := (bind c (fun x => k))
  (at level 100, c at next level, right associativity).
Notation "c ;;; k" := (bind c (fun _ => k))
  (at level 100, right associativity).

Definition lift {A} (r : Result A) : M A := fun w => (r, w).

Definition modify (f : World -> World) : M unit := fun w => (inr tt, f w).

Fixpoint mapM_M {A B} (f : A -> M B) (l : list A) : M (list B) :=
  match l with
  | [] => ret []
  | x :: l' => y <- f x ;; ys <- mapM_M f l' ;; ret (y :: ys)
  end.

(** State updates, one per kind of effect. *)

Definition set_suppress_debug_info (b : bool) (w : World) : World :=
  mkWorld b (stdout w) (debug_log w) (resolutions w) (requests w) (heap w).

Definition print (line : string) : M unit :=
  modify (fun w =>
    mkWorld (suppress_debug_info w) (stdout w ++ [line]) (debug_log w)
            (resolutions w) (requests w) (heap w)).

Definition adebug (msg : string) : M unit :=
  modify (fun w =>
    mkWorld (suppress_debug_info w) (stdout w) (debug_log w ++ [msg])
            (resolutions w) (requests w) (heap w)).

Definition deref (self : nat) : M LiteLLM :=
  fun w =>
    match heap w !! self with
    | Some o => (inr o, w)
    | None => (inl (DanglingReference self), w)
    end.

Definition store_batcher (b : BatchApiCaller) (o : LiteLLM) : LiteLLM :=
  mkLiteLLM (implementation o) (model o) (api_key_name o) (extra_options o)
            (Some b).

Definition set_batcher (self : nat) (b : BatchApiCaller) : M unit :=
  modify (fun w =>
    mkWorld (suppress_debug_info w) (stdout w) (debug_log w)
            (resolutions w) (requests w)
            (alter (store_batcher b) self (heap w))).

(** ** The methods of [LiteLLM] *)

(** The fixed provider table of [_max_chunks_per_batch], as the [match]
    statement reads it: first equal literal wins, [None] is [case _]. *)
Definition provider_limit (custom_llm_provider : string) : option Z :=
  if decide (custom_llm_provider = "cohere") then Some 96
  else if decide (custom_llm_provider = "openai") then Some 2048
  else if decide (custom_llm_provider = "azure") then Some 1024
  else if decide (custom_llm_provider = "bedrock") then Some 2048
  else if decide (custom_llm_provider = "huggingface") then Some 1024
  else if decide (custom_llm_provider = "mistral") then Some 1024
  else if decide (custom_llm_provider = "vertex") then Some 1024
  else if decide (custom_llm_provider = "voyage") then Some 128
  else None.

(** Whether [**extra_options] repeats one of the keywords that
    [call_embed_api] passes explicitly. *)
Definition kwargs_clash (kwargs : list (string * PyVal)) : bool :=
  existsb (fun kv => bool_decide (kv.1 = "model") || bool_decide (kv.1 = "input"))
          kwargs.

Section Methods.
Context {api : Litellm.Api}.

(** What the library writes to standard output when it fails to resolve
    [m] in the state [w]: its notice, unless the flag suppresses it. *)
Definition resolver_notice (m : string) (w : World) : list string :=
  if suppress_debug_info w then [] else Litellm.provider_list_notice m.

(** [litellm.get_llm_provider(model)], recorded in the trace.  A successful
    resolution writes nothing; a failing one writes the library's notice
    before it raises, when the flag does not suppress it. *)
Definition call_get_llm_provider (m : string)
  : M (string * string * option string * option string) :=
  fun w =>
    match Litellm.get_llm_provider m with
    | inr resolved =>
        (inr resolved,
         mkWorld (suppress_debug_info w) (stdout w) (debug_log w)
                 (resolutions w ++ [m]) (requests w) (heap w))
    | inl e =>
        (inl e,
         mkWorld (suppress_debug_info w) (stdout w ++ resolver_notice m w)
                 (debug_log w) (resolutions w ++ [m]) (requests w) (heap w))
    end.

(** [await litellm.aembedding(model=.., input=.., **kwargs)].  A key of
    [kwargs] that repeats an explicit keyword is a [TypeError] raised by
    the call expression itself, before the library is entered. *)
Definition call_aembedding (m : string) (input : Litellm.Input)
    (kwargs : list (string * PyVal)) : M Litellm.EmbeddingResponse :=
  fun w =>
    if kwargs_clash kwargs
    then (inl (TypeError "got multiple values for keyword argument"), w)
    else
      let r := Litellm.mkRequest (suppress_debug_info w) m input kwargs in
      (Litellm.aembedding (requests w) r,
       mkWorld (suppress_debug_info w) (stdout w) (debug_log w)
               (resolutions w) (requests w ++ [r]) (heap w)).

(** [[d["embedding"] for d in response["data"]]] *)
Definition embedding_fields (entries : list Litellm.DataEntry)
  : option (list EmbeddingVector) :=
  mapM (fun d : Litellm.DataEntry => d !! "embedding") entries.

(** litellm.py:85-103 *)
Definition call_embed_api (self : nat) (documents : Litellm.Input)
  : M EmbeddingResponse :=
  modify (set_suppress_debug_info true) ;;;
  o <- deref self ;;
  response <- call_aembedding (model o) documents (extra_options o) ;;
  let usage :=
    match Litellm.usage response with
    | Some u => mkUsage (Litellm.prompt_tokens u) (Litellm.total_tokens u)
    | None => mkUsage 0 0
    end in
  match embedding_fields (Litellm.data response) with
  | Some vs => ret (mkEmbeddingResponse vs usage)
  | None => raise (KeyError "embedding")
  end.

(** litellm.py:61-83 *)
Definition _max_chunks_per_batch (self : nat) : M Z :=
  o <- deref self ;;
  print ("model: " +:+ model o) ;;;
  resolved <- call_get_llm_provider (model o) ;;
  let '(_, custom_llm_provider, _, _) := resolved in
  match provider_limit custom_llm_provider with
  | Some n => ret n
  | None => raise (UnknownProviderError custom_llm_provider)
  end.

(** litellm.py:57-59, with [functools.cached_property]: the instance
    dictionary is consulted first; a missing entry is computed by the
    decorated function and stored, a raised exception stores nothing. *)
Definition _batcher (self : nat) : M BatchApiCaller :=
  o <- deref self ;;
  match _batcher_slot o with
  | Some b => ret b
  | None =>
      n <- _max_chunks_per_batch self ;;
      let b := mkBatchApiCaller n (call_embed_api_of self) in
      set_batcher self b ;;;
      ret b
  end.

(** litellm.py:42-55.  [BatchApiCaller.batch_chunks_and_embed] is defined
    in [..embeddings]; [embed] takes it as a parameter. *)
Definition embed {R : Type}
    (batch_chunks_and_embed : BatchApiCaller -> list string -> M R)
    (self : nat) (documents : list string) : M R :=
  adebug ("Chunks produced: " +:+ pretty (length documents)) ;;;
  b <- _batcher self ;;
  batch_chunks_and_embed b documents.

End Methods.

(** ** The batching engine of [..embeddings] *)

Module Batching.

Definition zero_usage : Usage := mkUsage 0 0.

Definition add_usage (u v : Usage) : Usage :=
  mkUsage (prompt_tokens u + prompt_tokens v) (total_tokens u + total_tokens v).

(** Modelled from the spec: BatchSplitter.split (section 4.2), which is
    not in the source file.  Contiguous slices of at most [limit]
    documents, [ceil(N / limit)] of them, none for an empty input; a
    limit that is not positive fails at once. *)
Definition split {A} (documents : list A) (limit : Z) : Result (list (list A)) :=
  if decide (limit <= 0) then inl (InvalidBatchLimit limit)
  else
    let size := Z.to_nat limit in
    let count := ((length documents + size - 1) / size)%nat in
    inr ((fun i => take size (drop (i * size) documents)) <$> seq 0 count).

(** Modelled from the spec: the reassembly step of BatchApiCaller
    (section 4.3): the sub-batch embeddings concatenated in sub-batch
    order, the two usage counters summed. *)
Definition reassemble (responses : list EmbeddingResponse) : EmbeddingResponse :=
  mkEmbeddingResponse (concat (embeddings <$> responses))
                      (foldr add_usage zero_usage (usage <$> responses)).

(** Modelled from the spec: BatchApiCaller.batch_and_call (section 4.3),
    executed sequentially: one call per sub-batch, the first failure
    ends the request. *)
Definition batch_and_call (documents : list string) (limit : Z)
    (call : list string -> M EmbeddingResponse) : M EmbeddingResponse :=
  batches <- lift (split documents limit) ;;
  responses <- mapM_M call batches ;;
  ret (reassemble responses).

(** Modelled from the spec: the concurrent execution that sections 4.3
    and 5 allow.  All sub-batches are submitted; [completion] lists their
    submission indices in the order in which the calls complete, and each
    response is filed under its submission index. *)
Fixpoint complete (call : list string -> M EmbeddingResponse)
    (batches : list (list string)) (completion : list nat)
    (filed : gmap nat EmbeddingResponse) : M (gmap nat EmbeddingResponse) :=
  match completion with
  | [] => ret filed
  | i :: later =>
      match batches !! i with
      | Some batch =>
          response <- call batch ;;
          complete call batches later (<[i := response]> filed)
      | None => complete call batches later filed
      end
  end.

(** The responses of sub-batches [0 .. count-1], read by submission index. *)
Definition gather (count : nat) (filed : gmap nat EmbeddingResponse)
  : option (list EmbeddingResponse) :=
  mapM (fun i => filed !! i) (seq 0 count).

Definition batch_and_call_concurrent (completion : list nat)
    (documents : list string) (limit : Z)
    (call : list string -> M EmbeddingResponse) : M EmbeddingResponse :=
  batches <- lift (split documents limit) ;;
  filed <- complete call batches completion ∅ ;;
  match gather (length batches) filed with
  | Some responses => ret (reassemble responses)
  | None => raise TasksPending
  end.

Section Caller.
Context {api : Litellm.Api}.

(** Calling the stored callable with one sub-batch. *)
Definition invoke (c : Callable) (batch : list string) : M EmbeddingResponse :=
  match c with
  | call_embed_api_of self => call_embed_api self (Litellm.InList batch)
  end.

(** Modelled from the spec: BatchApiCaller.batch_chunks_and_embed, the
    method [embed] calls; its definition is in [..embeddings]. *)
Definition batch_chunks_and_embed (b : BatchApiCaller)
    (documents : list string) : M EmbeddingResponse :=
  batch_and_call documents (max_chunks_per_batch b) (invoke (api_callable b)).

Definition batch_chunks_and_embed_concurrent (completion : list nat)
    (b : BatchApiCaller) (documents : list string) : M EmbeddingResponse :=
  batch_and_call_concurrent completion documents (max_chunks_per_batch b)
                            (invoke (api_callable b)).

End Caller.

End Batching.

Import Batching.

(** ** State predicates *)

Section Predicates.
Context {api : Litellm.Api}.

(** The provider identifier in the tuple [get_llm_provider] returns. *)
Definition provider_of
    (resolved : string * string * option string * option string) : string :=
  let '(_, custom_llm_provider, _, _) := resolved in custom_llm_provider.

(** Every filled cache slot holds what [_batcher] stores for that object. *)
Definition cache_sound (w : World) : Prop :=
  forall a o b,
    heap w !! a = Some o -> _batcher_slot o = Some b ->
    api_callable b = call_embed_api_of a /\
    exists resolved,
      Litellm.get_llm_provider (model o) = inr resolved /\
      provider_limit (provider_of resolved) = Some (max_chunks_per_batch b).

End Predicates.

(** ** Stub collaborators *)

(** A provider that embeds a document as its length and reports a fixed
    usage for every call. *)
Definition length_vector (document : string) : EmbeddingVector :=
  PyList [PyFloat (Z.of_nat (String.length document))].

Definition entry_of (index : nat) (document : string) : Litellm.DataEntry :=
  {[ "object" := PyStr "embedding";
     "index" := PyInt (Z.of_nat index);
     "embedding" := length_vector document ]}.

Definition input_documents (i : Litellm.Input) : list string :=
  match i with
  | Litellm.InStr d => [d]
  | Litellm.InList ds => ds
  end.

Definition faithful_answer (u : option Litellm.Usage) (r : Litellm.Request)
  : Litellm.EmbeddingResponse :=
  Litellm.mkEmbeddingResponse
    (imap entry_of (input_documents (Litellm.req_input r))) u.

(** The notice the stubs write when a resolution fails unsuppressed. *)
Definition provider_list_lines : list string :=
  [""; "Provider List: https://docs.litellm.ai/docs/providers"; ""].

Definition stub_api (provider : string)
    (answer : list Litellm.Request -> Litellm.Request -> Result Litellm.EmbeddingResponse)
  : Litellm.Api :=
  {| Litellm.get_llm_provider := fun m => inr (m, provider, None, None);
     Litellm.provider_list_notice := fun _ => provider_list_lines;
     Litellm.aembedding := answer |}.

Definition metered : option Litellm.Usage := Some (Litellm.mkUsage 10 12).

(** Answers every request, one entry per document. *)
Definition faithful_api (provider : string) : Litellm.Api :=
  stub_api provider (fun _ r => inr (faithful_answer metered r)).

(** Answers every request with the entry of its first document only and
    reports no usage. *)
Definition short_api : Litellm.Api :=
  stub_api "openai" (fun _ r =>
    inr (Litellm.mkEmbeddingResponse
           (take 1 (imap entry_of (input_documents (Litellm.req_input r)))) None)).

(** Fails the second request it receives. *)
Definition flaky_api : Litellm.Api :=
  stub_api "cohere" (fun history r =>
    if decide (length history = 1%nat) then inl (ExternalError "rate limit")
    else inr (faithful_answer metered r)).

Definition fresh (m : string) : LiteLLM := mkLiteLLM "litellm" m None [] None.

(** A process with one embedder at address 0 and nothing done yet. *)
Definition boot (m : string) : World :=
  mkWorld false [] [] [] [] {[ 0%nat := fresh m ]}.

(** The request [call_embed_api] issues for one sub-batch on behalf of [o]. *)
Definition request_for (o : LiteLLM) (documents : Litellm.Input) : Litellm.Request :=
  Litellm.mkRequest true (model o) documents (extra_options o).

(** The eight provider identifiers of the table, with their limits. *)
Definition known_limits : list (string * Z) :=
  [("cohere", 96); ("openai", 2048); ("azure", 1024); ("bedrock", 2048);
   ("huggingface", 1024); ("mistral", 1024); ("vertex", 1024); ("voyage", 128)].

(** The process state after [_max_chunks_per_batch] has printed the model
    of [o] and asked the library for its provider. *)
Definition after_resolution (o : LiteLLM) (w : World) : World :=
  mkWorld (suppress_debug_info w) (stdout w ++ ["model: " +:+ model o])
          (debug_log w) (resolutions w ++ [model o]) (requests w) (heap w).

(** The process state after [_max_chunks_per_batch] has printed the model
    of [o] and the library has failed to resolve it: the library's notice
    follows the model line unless the flag suppresses it. *)
Definition after_failed_resolution {api : Litellm.Api} (o : LiteLLM) (w : World)
  : World :=
  mkWorld (suppress_debug_info w)
          ((stdout w ++ ["model: " +:+ model o]) ++ resolver_notice (model o) w)
          (debug_log w) (resolutions w ++ [model o]) (requests w) (heap w).

(** The process state after [embed] has logged the size of its input. *)
Definition after_debug (documents : list string) (w : World) : World :=
  mkWorld (suppress_debug_info w) (stdout w)
          (debug_log w ++ ["Chunks produced: " +:+ pretty (length documents)])
          (resolutions w) (requests w) (heap w).

(** The process state after [cached_property] has stored [b] on [self]. *)
Definition after_caching (self : nat) (b : BatchApiCaller) (w : World) : World :=
  mkWorld (suppress_debug_info w) (stdout w) (debug_log w) (resolutions w)
          (requests w) (alter (store_batcher b) self (heap w)).

(** The process state after [call_embed_api] has set the flag and handed
    its request for [documents] to the library on behalf of [o]. *)
Definition after_request (o : LiteLLM) (documents : Litellm.Input) (w : World) : World :=
  mkWorld true (stdout w) (debug_log w) (resolutions w)
          (requests w ++ [request_for o documents]) (heap w).

(** Calling [f] on the elements of a list one after the other, each call
    returning: the values returned and the state left by the last call. *)
Inductive served {A B : Type} (f : A -> M B)
  : list A -> World -> list B -> World -> Prop :=
| served_nil w : served f [] w [] w
| served_cons x l w y w1 ys w2 :
    f x w = (inr y, w1) ->
    served f l w1 ys w2 ->
    served f (x :: l) w (y :: ys) w2.

Section Providers.
Context {api : Litellm.Api}.

(** The provider answers every request, and the entry at position [i] of
    its answer carries the vector [vec] assigns to the document at
    position [i] of the request. *)
Definition embeds_with (vec : string -> EmbeddingVector) : Prop :=
  forall history r, exists response,
    Litellm.aembedding history r = inr response /\
    Forall2 (fun d (e : Litellm.DataEntry) => e !! "embedding" = Some (vec d))
            (input_documents (Litellm.req_input r)) (Litellm.data response).

(** Every answer of the provider has as many entries as its request has
    documents. *)
Definition one_entry_per_document : Prop :=
  forall history r response,
    Litellm.aembedding history r = inr response ->
    length (Litellm.data response) = Litellm.input_count (Litellm.req_input r).

End Providers.

(** The response [r] holds, in order, the vectors [vec] assigns to the
    documents of [batch]. *)
Definition embedded_by (vec : string -> EmbeddingVector)
    (batch : list string) (r : EmbeddingResponse) : Prop :=
  embeddings r = vec <$> batch.

(** Inputs and a small batcher for concrete runs. *)
Definition six_documents : list string := ["a"; "bb"; "ccc"; "dddd"; "eeeee"; "f"].

Definition two_hundred_documents : list string :=
  (fun i : nat => "document " +:+ pretty i) <$> seq 0 200.

Definition pairs : BatchApiCaller := mkBatchApiCaller 2 (call_embed_api_of 0).

(** Answers every request with one entry that has no [embedding] key. *)
Definition keyless_api : Litellm.Api :=
  stub_api "openai" (fun _ _ =>
    inr (Litellm.mkEmbeddingResponse [ {[ "index" := PyInt 0 ]} ] None)).

(** Fails every request. *)
Definition down_api : Litellm.Api :=
  stub_api "openai" (fun _ _ => inl (ExternalError "connection refused")).

(** Cannot resolve any model name. *)
Definition unresolvable_api : Litellm.Api :=
  {| Litellm.get_llm_provider := fun _ => inl (ExternalError "LLM Provider NOT provided");
     Litellm.provider_list_notice := fun _ => provider_list_lines;
     Litellm.aembedding := fun _ r => inr (faithful_answer metered r) |}.

(** A process with one embedder at address 0 configured with [options]. *)
Definition boot_with (m : string) (options : list (string * PyVal)) : World :=
  mkWorld false [] [] [] [] {[ 0%nat := mkLiteLLM "litellm" m None options None ]}.

(** Unfolding the monad and the primitive effects. *)
Ltac unfold_monad :=
  unfold bind, ret, raise, lift, modify, deref, print, adebug,
    set_batcher, call_get_llm_provider, call_aembedding in *.

(** * Properties *)

Section Table.

Lemma provider_limit_known p n :
  (p, n) ∈ known_limits -> provider_limit p = Some n.
Proof.
  unfold known_limits. rewrite !elem_of_cons, elem_of_nil.
  intros Hin. repeat destruct Hin as [Hin | Hin]; try done;
    injection Hin as -> ->; reflexivity.
Qed.

Lemma provider_limit_unknown p :
  p ∉ known_limits.*1 -> provider_limit p = None.
Proof.
  unfold known_limits. simpl. rewrite !not_elem_of_cons.
  intros (? & ? & ? & ? & ? & ? & ? & ? & _).
  unfold provider_limit. repeat case_decide; done.
Qed.

Lemma provider_limit_positive p n : provider_limit p = Some n -> 0 < n.
Proof.
  unfold provider_limit. repeat case_decide; intros [= <-]; lia.
Qed.

Lemma provider_limit_listed p n :
  provider_limit p = Some n -> (p, n) ∈ known_limits.
Proof.
  unfold provider_limit, known_limits.
  repeat case_decide; intros [= <-]; subst; set_solver.
Qed.

End Table.

Section Proofs.
Context {api : Litellm.Api}.

(** ** Provider limits *)

Lemma max_chunks_run self w o :
  heap w !! self = Some o ->
  _max_chunks_per_batch self w =
    let w' := after_resolution o w in
    match Litellm.get_llm_provider (model o) with
    | inl e => (inl e, after_failed_resolution o w)
    | inr resolved =>
        match provider_limit (provider_of resolved) with
        | Some n => (inr n, w')
        | None => (inl (UnknownProviderError (provider_of resolved)), w')
        end
    end.
Proof.
  intros Ho. unfold _max_chunks_per_batch. unfold_monad. rewrite Ho. simpl.
  destruct (Litellm.get_llm_provider (model o)) as [e | [[[m p] k] ab]]; [done |].
  simpl. by destruct (provider_limit p).
Qed.

(** C1. When the model of an embedder resolves to one of the eight
    providers of the table, [_max_chunks_per_batch] returns the limit
    written next to it (96 for cohere, 2048 for openai, 1024 for azure,
    2048 for bedrock, 1024 for huggingface, mistral and vertex, 128 for
    voyage), which is positive, and returns nothing else. *)
Theorem max_chunks_per_batch_known (self : nat) (w : World) (o : LiteLLM)
    resolved (p : string) (n : Z) :
  heap w !! self = Some o ->
  Litellm.get_llm_provider (model o) = inr resolved ->
  provider_of resolved = p ->
  (p, n) ∈ [("cohere", 96); ("openai", 2048); ("azure", 1024);
            ("bedrock", 2048); ("huggingface", 1024); ("mistral", 1024);
            ("vertex", 1024); ("voyage", 128)] ->
  (_max_chunks_per_batch self w).1 = inr n /\ 0 < n /\
  forall n', (_max_chunks_per_batch self w).1 = inr n' -> n' = n.
Proof.
  intros Ho Hres <- Hin.
  pose proof (provider_limit_known _ _ Hin) as Hlim.
  rewrite (max_chunks_run _ _ _ Ho), Hres. simpl. rewrite Hlim. simpl.
  split; [done |]. split; [by eapply provider_limit_positive |].
  by intros n' [= <-].
Qed.

(** ** The cached batcher *)

Lemma batcher_run_cached self w o b :
  heap w !! self = Some o -> _batcher_slot o = Some b ->
  _batcher self w = (inr b, w).
Proof.
  intros Ho Hb. unfold _batcher. unfold_monad. by rewrite Ho, Hb.
Qed.

Lemma batcher_run_empty self w o :
  heap w !! self = Some o -> _batcher_slot o = None ->
  _batcher self w =
    match _max_chunks_per_batch self w with
    | (inr n, w') =>
        let b := mkBatchApiCaller n (call_embed_api_of self) in
        (inr b, after_caching self b w')
    | (inl e, w') => (inl e, w')
    end.
Proof.
  intros Ho Hb. unfold _batcher. unfold_monad. rewrite Ho, Hb.
  by destruct (_max_chunks_per_batch self w) as [[e | n] w'].
Qed.

Lemma embed_run {R} (bce : BatchApiCaller -> list string -> M R) self documents w :
  embed bce self documents w =
    match _batcher self (after_debug documents w) with
    | (inr b, w') => bce b documents w'
    | (inl e, w') => (inl e, w')
    end.
Proof. reflexivity. Qed.

Lemma unknown_slot_empty self w o resolved :
  cache_sound w -> heap w !! self = Some o ->
  Litellm.get_llm_provider (model o) = inr resolved ->
  provider_limit (provider_of resolved) = None ->
  _batcher_slot o = None.
Proof.
  intros Hsound Ho Hres Hnone.
  destruct (_batcher_slot o) as [b |] eqn:Hb; [| done].
  destruct (Hsound _ _ _ Ho Hb) as (_ & resolved' & Hres' & Hlim).
  rewrite Hres in Hres'. injection Hres' as <-. congruence.
Qed.

(** C2. When the model of an embedder resolves to a provider that is
    none of the eight of the table, the limit lookup raises
    [UnknownProviderError] carrying that identifier, and [embed] raises it
    as well without ever reaching the batcher or the provider: whatever
    the batcher's method is, the request trace, the flag and the store are
    as they were, only the two diagnostics and the resolution were added. *)
Theorem unknown_provider_before_any_call {R : Type}
    (bce : BatchApiCaller -> list string -> M R)
    (self : nat) (w : World) (o : LiteLLM) resolved (documents : list string) :
  cache_sound w ->
  heap w !! self = Some o ->
  Litellm.get_llm_provider (model o) = inr resolved ->
  provider_of resolved ∉ ["cohere"; "openai"; "azure"; "bedrock";
                          "huggingface"; "mistral"; "vertex"; "voyage"] ->
  _max_chunks_per_batch self w =
    (inl (UnknownProviderError (provider_of resolved)), after_resolution o w) /\
  embed bce self documents w =
    (inl (UnknownProviderError (provider_of resolved)),
     after_resolution o (after_debug documents w)) /\
  requests (embed bce self documents w).2 = requests w.
Proof.
  intros Hsound Ho Hres Hnot.
  pose proof (provider_limit_unknown _ Hnot) as Hnone.
  assert (Hmax : forall w0, heap w0 !! self = Some o ->
            _max_chunks_per_batch self w0 =
              (inl (UnknownProviderError (provider_of resolved)),
               after_resolution o w0)).
  { intros w0 Ho0. rewrite (max_chunks_run _ _ _ Ho0), Hres. simpl.
    by rewrite Hnone. }
  split; [by apply Hmax |].
  assert (Hembed : embed bce self documents w =
            (inl (UnknownProviderError (provider_of resolved)),
             after_resolution o (after_debug documents w))).
  { rewrite embed_run.
    rewrite (batcher_run_empty self (after_debug documents w) o); [| done |].
    - by rewrite Hmax.
    - by eapply unknown_slot_empty. }
  split; [done |]. by rewrite Hembed.
Qed.


(** ** The provider call *)

Lemma call_embed_api_run self documents w o :
  heap w !! self = Some o ->
  kwargs_clash (extra_options o) = false ->
  call_embed_api self documents w =
    match Litellm.aembedding (requests w) (request_for o documents) with
    | inl e => (inl e, after_request o documents w)
    | inr response =>
        match embedding_fields (Litellm.data response) with
        | Some vs =>
            (inr (mkEmbeddingResponse vs
                    match Litellm.usage response with
                    | Some u => mkUsage (Litellm.prompt_tokens u)
                                        (Litellm.total_tokens u)
                    | None => mkUsage 0 0
                    end),
             after_request o documents w)
        | None => (inl (KeyError "embedding"), after_request o documents w)
        end
    end.
Proof.
  intros Ho Hclash. unfold call_embed_api. unfold_monad. simpl.
  rewrite Ho, Hclash. simpl. fold (request_for o documents).
  destruct (Litellm.aembedding _ _) as [e | response]; [done |].
  by destruct (embedding_fields _).
Qed.

(** What a call of [call_embed_api] leaves behind, whatever its outcome. *)
Lemma call_embed_api_frame self documents w :
  let w' := (call_embed_api self documents w).2 in
  suppress_debug_info w' = true /\
  heap w' = heap w /\ resolutions w' = resolutions w /\
  stdout w' = stdout w /\ debug_log w' = debug_log w /\
  (requests w' = requests w \/
   exists o, heap w !! self = Some o /\
             requests w' = requests w ++ [request_for o documents]).
Proof.
  unfold call_embed_api. unfold_monad. simpl.
  destruct (heap w !! self) as [o |] eqn:Ho; simpl; [| by auto 10].
  destruct (kwargs_clash (extra_options o)); simpl; [by auto 10 |].
  fold (request_for o documents).
  destruct (Litellm.aembedding _ _) as [e | response]; simpl.
  - repeat split; eauto.
  - destruct (embedding_fields _); simpl; repeat split; eauto.
Qed.

(** A call that returns has sent exactly one request. *)
Lemma call_embed_api_returns self documents w r w' :
  call_embed_api self documents w = (inr r, w') ->
  exists o response,
    heap w !! self = Some o /\
    Litellm.aembedding (requests w) (request_for o documents) = inr response /\
    embedding_fields (Litellm.data response) = Some (embeddings r) /\
    w' = after_request o documents w.
Proof.
  unfold call_embed_api. unfold_monad. simpl.
  destruct (heap w !! self) as [o |] eqn:Ho; simpl; [| done].
  destruct (kwargs_clash (extra_options o)); simpl; [done |].
  fold (request_for o documents).
  destruct (Litellm.aembedding _ _) as [e | response] eqn:Hr; simpl; [done |].
  destruct (embedding_fields _) as [vs |] eqn:Hvs; simpl; [| done].
  intros [= <- <-]. by exists o, response.
Qed.

Lemma embedding_fields_Forall2 (entries : list Litellm.DataEntry) vs :
  embedding_fields entries = Some vs <->
  Forall2 (fun (d : Litellm.DataEntry) v => d !! "embedding" = Some v) entries vs.
Proof. unfold embedding_fields. apply mapM_Some. Qed.

(** C7. [call_embed_api] turns the provider's raw response into an
    [EmbeddingResponse] whose embeddings are the [embedding] fields of the
    entries of [data], in their order, and whose usage copies the
    provider's two counters when usage is reported and is [{0, 0}] when
    it is not. *)
Theorem call_embed_api_translates (self : nat) (documents : Litellm.Input)
    (w : World) (o : LiteLLM) (response : Litellm.EmbeddingResponse) :
  heap w !! self = Some o ->
  kwargs_clash (extra_options o) = false ->
  Litellm.aembedding (requests w)
    (Litellm.mkRequest true (model o) documents (extra_options o)) = inr response ->
  Forall (fun d : Litellm.DataEntry => is_Some (d !! "embedding"))
         (Litellm.data response) ->
  exists r,
    (call_embed_api self documents w).1 = inr r /\
    Forall2 (fun (d : Litellm.DataEntry) v => d !! "embedding" = Some v)
            (Litellm.data response) (embeddings r) /\
    (forall u, Litellm.usage response = Some u ->
       usage r = mkUsage (Litellm.prompt_tokens u) (Litellm.total_tokens u)) /\
    (Litellm.usage response = None -> usage r = mkUsage 0 0).
Proof.
  intros Ho Hclash Hresp Hall.
  rewrite (call_embed_api_run _ _ _ _ Ho Hclash).
  unfold request_for. rewrite Hresp.
  destruct (embedding_fields (Litellm.data response)) as [vs |] eqn:Hvs.
  - eexists. split; [reflexivity |]. simpl.
    split; [by apply embedding_fields_Forall2 |].
    split; [by intros u -> | by intros ->].
  - exfalso. unfold embedding_fields in Hvs. apply mapM_None in Hvs.
    apply Exists_exists in Hvs as (d & Hd & Hnone).
    rewrite Forall_forall in Hall. destruct (Hall d Hd) as [v Hv]. congruence.
Qed.

(** The methods that resolve and cache leave the flag alone. *)
Lemma max_chunks_flag self w :
  suppress_debug_info (_max_chunks_per_batch self w).2 = suppress_debug_info w.
Proof.
  unfold _max_chunks_per_batch. unfold_monad.
  destruct (heap w !! self) as [o |]; simpl; [| done].
  destruct (Litellm.get_llm_provider (model o)) as [e | [[[m p] k] ab]]; [done |].
  by destruct (provider_limit p).
Qed.

Lemma batcher_flag self w :
  suppress_debug_info (_batcher self w).2 = suppress_debug_info w.
Proof.
  destruct (heap w !! self) as [o |] eqn:Ho.
  - destruct (_batcher_slot o) as [b |] eqn:Hb.
    + by rewrite (batcher_run_cached _ _ _ _ Ho Hb).
    + rewrite (batcher_run_empty _ _ _ Ho Hb).
      pose proof (max_chunks_flag self w) as Hflag.
      by destruct (_max_chunks_per_batch self w) as [[e | n] w'].
  - unfold _batcher. unfold_monad. by rewrite Ho.
Qed.

(** C9. Every call of [call_embed_api], on any instance, with any input
    and whatever its outcome, leaves the process-wide flag
    [litellm.suppress_debug_info] set; the request it hands to the
    library, if it gets that far, already finds the flag set; and no
    method of the class resets it afterwards, on this or any other
    instance. *)
Theorem call_embed_api_sets_global_flag (self : nat)
    (documents : Litellm.Input) (w : World) :
  let w' := (call_embed_api self documents w).2 in
  suppress_debug_info w' = true /\
  (exists issued, requests w' = requests w ++ issued /\
     Forall (fun r => Litellm.req_suppress_debug_info r = true) issued) /\
  forall (other : nat) (documents' : Litellm.Input),
    suppress_debug_info (call_embed_api other documents' w').2 = true /\
    suppress_debug_info (_max_chunks_per_batch other w').2 = true /\
    suppress_debug_info (_batcher other w').2 = true.
Proof.
  intros w'. subst w'.
  destruct (call_embed_api_frame self documents w)
    as (Hflag & _ & _ & _ & _ & Hreq).
  split; [done |]. split.
  - destruct Hreq as [-> | (o & _ & ->)].
    + exists []. by rewrite app_nil_r.
    + exists [request_for o documents]. split; [done |]. by constructor.
  - intros other documents'. split; [| split].
    + apply call_embed_api_frame.
    + by rewrite max_chunks_flag.
    + by rewrite batcher_flag.
Qed.


(** ** Forwarding and caching *)

(** C10. [embed] neither checks nor changes its input: after logging the
    size of the list it hands the very list it received, empty or not, to
    [batch_chunks_and_embed] of the instance's batcher and returns what
    that method returns, value and state alike; the only other way out is
    an exception raised while the batcher is obtained. *)
Theorem embed_forwards_unchanged {R : Type}
    (bce : BatchApiCaller -> list string -> M R)
    (self : nat) (documents : list string) (w : World) :
  embed bce self documents w =
    match _batcher self (after_debug documents w) with
    | (inr b, w1) => bce b documents w1
    | (inl e, w1) => (inl e, w1)
    end /\
  forall b w1,
    _batcher self (after_debug documents w) = (inr b, w1) ->
    embed (fun b' documents' => ret (b', documents')) self documents w =
      (inr (b, documents), w1).
Proof.
  split; [apply embed_run |].
  intros b w1 Hb. by rewrite embed_run, Hb.
Qed.

Lemma max_chunks_heap self w : heap (_max_chunks_per_batch self w).2 = heap w.
Proof.
  unfold _max_chunks_per_batch. unfold_monad.
  destruct (heap w !! self) as [o |]; simpl; [| done].
  destruct (Litellm.get_llm_provider (model o)) as [e | [[[m p] k] ab]]; [done |].
  by destruct (provider_limit p).
Qed.

(** [_batcher] returns, on an empty slot, the pairing of the table's
    limit with the bound method, and stores it. *)
Lemma batcher_first_access self w o b w1 :
  heap w !! self = Some o -> _batcher_slot o = None ->
  _batcher self w = (inr b, w1) ->
  exists resolved n,
    Litellm.get_llm_provider (model o) = inr resolved /\
    provider_limit (provider_of resolved) = Some n /\
    b = mkBatchApiCaller n (call_embed_api_of self) /\
    w1 = after_caching self b (after_resolution o w).
Proof.
  intros Ho Hslot. rewrite (batcher_run_empty _ _ _ Ho Hslot).
  rewrite (max_chunks_run _ _ _ Ho). simpl.
  destruct (Litellm.get_llm_provider (model o)) as [e | resolved]; [done |].
  destruct (provider_limit (provider_of resolved)) as [n |] eqn:Hn; [| done].
  intros [= <- <-]. by exists resolved, n.
Qed.

(** A filled slot survives every access to [_batcher], on any instance. *)
Lemma batcher_keeps_slot other w a o b :
  heap w !! a = Some o -> _batcher_slot o = Some b ->
  exists o', heap (_batcher other w).2 !! a = Some o' /\
             _batcher_slot o' = Some b /\ model o' = model o.
Proof.
  intros Ha Hb.
  destruct (heap w !! other) as [oo |] eqn:Hother.
  - destruct (_batcher_slot oo) as [bo |] eqn:Hbo.
    + rewrite (batcher_run_cached _ _ _ _ Hother Hbo). eauto.
    + rewrite (batcher_run_empty _ _ _ Hother Hbo).
      pose proof (max_chunks_heap other w) as Hheap.
      destruct (_max_chunks_per_batch other w) as [[e | n] w']; simpl in *.
      * rewrite Hheap. eauto.
      * rewrite Hheap. destruct (decide (other = a)) as [-> | Hne].
        { congruence. }
        { rewrite lookup_alter_ne by done. eauto. }
  - unfold _batcher. unfold_monad. rewrite Hother. eauto.
Qed.

(** C8. The batcher of an instance is built on the first access to
    [_batcher], with one provider resolution and one lookup in the table,
    and written into the slot of that instance, whose fields stay as they
    are.  The next access finds it there: it returns that same batcher and
    changes nothing, so the provider is not resolved again, and [embed]
    hands its documents straight to it.  The same holds wherever the
    instance still holds the batcher, and neither [_batcher] nor
    [call_embed_api], called on this or any other instance, empties the
    slot. *)
Theorem batcher_built_once (self : nat) (w : World) (o : LiteLLM)
    (b : BatchApiCaller) (w1 : World) :
  heap w !! self = Some o ->
  _batcher_slot o = None ->
  _batcher self w = (inr b, w1) ->
  resolutions w1 = resolutions w ++ [model o] /\
  heap w1 !! self
    = Some (mkLiteLLM (implementation o) (model o) (api_key_name o)
                      (extra_options o) (Some b)) /\
  _batcher self w1 = (inr b, w1) /\
  resolutions (_batcher self w1).2 = resolutions w ++ [model o] /\
  (forall (R : Type) (bce : BatchApiCaller -> list string -> M R) documents,
     embed bce self documents w1 = bce b documents (after_debug documents w1)) /\
  (forall other documents,
     heap (call_embed_api other documents w1).2 !! self
       = Some (mkLiteLLM (implementation o) (model o) (api_key_name o)
                         (extra_options o) (Some b))) /\
  (forall other,
     exists o3, heap (_batcher other w1).2 !! self = Some o3 /\
                _batcher_slot o3 = Some b) /\
  (forall w2 o2,
     heap w2 !! self = Some o2 -> _batcher_slot o2 = Some b ->
     _batcher self w2 = (inr b, w2) /\
     (forall (R : Type) (bce : BatchApiCaller -> list string -> M R) documents,
        embed bce self documents w2 = bce b documents (after_debug documents w2)) /\
     (forall other documents,
        heap (call_embed_api other documents w2).2 = heap w2) /\
     (forall other,
        exists o3, heap (_batcher other w2).2 !! self = Some o3 /\
                   _batcher_slot o3 = Some b)).
Proof.
  intros Ho Hslot Hrun.
  destruct (batcher_first_access _ _ _ _ _ Ho Hslot Hrun)
    as (resolved & n & _ & _ & _ & ->).
  set (o1 := mkLiteLLM (implementation o) (model o) (api_key_name o)
                       (extra_options o) (Some b)).
  set (w1 := after_caching self b (after_resolution o w)).
  assert (Ho1 : heap w1 !! self = Some o1).
  { subst w1 o1. simpl. by rewrite lookup_alter_eq, Ho. }
  assert (Hlater : forall w2 o2,
            heap w2 !! self = Some o2 -> _batcher_slot o2 = Some b ->
            _batcher self w2 = (inr b, w2) /\
            (forall (R : Type) (bce : BatchApiCaller -> list string -> M R) documents,
               embed bce self documents w2 = bce b documents (after_debug documents w2)) /\
            (forall other documents,
               heap (call_embed_api other documents w2).2 = heap w2) /\
            (forall other,
               exists o3, heap (_batcher other w2).2 !! self = Some o3 /\
                          _batcher_slot o3 = Some b)).
  { intros w2 o2 Ho2 Hb2. split; [by eapply batcher_run_cached |].
    split; [| split].
    - intros R bce documents. rewrite embed_run.
      by rewrite (batcher_run_cached self (after_debug documents w2) o2 b).
    - intros other documents. apply call_embed_api_frame.
    - intros other.
      destruct (batcher_keeps_slot other _ _ _ _ Ho2 Hb2) as (o3 & ? & ? & _).
      eauto. }
  destruct (Hlater w1 o1 Ho1 eq_refl) as (Hagain & Hembed & Hcall & Hother).
  split; [done |]. split; [done |]. split; [done |].
  split; [by rewrite Hagain |]. split; [done |].
  split; [| split; [done | done]].
  intros other documents. by rewrite Hcall.
Qed.

(** ** Reachable stores *)

Lemma cache_sound_heap w w' : heap w' = heap w -> cache_sound w -> cache_sound w'.
Proof. unfold cache_sound. intros ->. auto. Qed.

Lemma cache_sound_empty_slots w :
  (forall a o, heap w !! a = Some o -> _batcher_slot o = None) -> cache_sound w.
Proof. intros Hempty a o b Ha Hb. rewrite (Hempty _ _ Ha) in Hb. done. Qed.

Lemma cache_sound_call_embed_api self documents w :
  cache_sound w -> cache_sound (call_embed_api self documents w).2.
Proof. apply cache_sound_heap, call_embed_api_frame. Qed.

Lemma cache_sound_batcher self w :
  cache_sound w -> cache_sound (_batcher self w).2.
Proof.
  intros Hsound.
  destruct (heap w !! self) as [o |] eqn:Ho.
  - destruct (_batcher_slot o) as [b |] eqn:Hb.
    + by rewrite (batcher_run_cached _ _ _ _ Ho Hb).
    + destruct (_batcher self w) as [[e | b] w1] eqn:Hrun.
      * rewrite (batcher_run_empty _ _ _ Ho Hb) in Hrun.
        pose proof (max_chunks_heap self w) as Hheap.
        destruct (_max_chunks_per_batch self w) as [[e' | n] w']; [| done].
        injection Hrun as _ <-. by eapply cache_sound_heap.
      * destruct (batcher_first_access _ _ _ _ _ Ho Hb Hrun)
          as (resolved & n & Hres & Hn & -> & ->).
        intros a oa ba. simpl.
        destruct (decide (self = a)) as [<- | Hne].
        { rewrite lookup_alter_eq, Ho. simpl. intros [= <-] [= <-]. simpl.
          split; [done |]. by exists resolved. }
        { rewrite lookup_alter_ne by done. apply Hsound. }
  - unfold _batcher. unfold_monad. by rewrite Ho.
Qed.


(** ** The batching engine *)

Lemma served_mapM_M {A B} (f : A -> M B) l w ys w' :
  mapM_M f l w = (inr ys, w') <-> served f l w ys w'.
Proof.
  split.
  - revert w ys. induction l as [| x l IH]; intros w ys; simpl.
    + unfold ret. intros [= <- <-]. constructor.
    + unfold bind at 1. destruct (f x w) as [[e | y] w1] eqn:Hx; [done |].
      unfold bind at 1. destruct (mapM_M f l w1) as [[e | ys'] w2] eqn:Hl; [done |].
      unfold ret. intros [= <- <-]. econstructor; eauto.
  - induction 1 as [| x l w y w1 ys w2 Hx _ IH]; [done |].
    simpl. unfold bind at 1. rewrite Hx. unfold bind at 1. by rewrite IH.
Qed.

Lemma mapM_M_fails_at {A B} (f : A -> M B) before x after w rs w1 e w2 :
  served f before w rs w1 ->
  f x w1 = (inl e, w2) ->
  mapM_M f (before ++ x :: after) w = (inl e, w2).
Proof.
  induction 1 as [| x0 l w y w1 ys w3 Hx _ IH]; intros Hfail; simpl.
  - unfold bind at 1. by rewrite Hfail.
  - unfold bind at 1. rewrite Hx. unfold bind at 1. by rewrite IH.
Qed.

Lemma served_length {A B} (f : A -> M B) l w ys w' :
  served f l w ys w' -> length ys = length l.
Proof. induction 1; simpl; congruence. Qed.

Lemma slices_concat {A} (l : list A) (size k : nat) :
  concat ((fun i => take size (drop (i * size) l)) <$> seq 0 k) = take (k * size) l.
Proof.
  induction k as [| k IH]; [done |].
  rewrite seq_S, fmap_app, concat_app, IH. simpl. rewrite app_nil_r.
  rewrite take_take_drop. f_equal. lia.
Qed.

Lemma split_positive {A} (documents : list A) limit batches :
  split documents limit = inr batches -> 0 < limit.
Proof. unfold split. case_decide; [done | lia]. Qed.

Lemma split_concat {A} (documents : list A) limit batches :
  split documents limit = inr batches -> concat batches = documents.
Proof.
  unfold split. case_decide as Hlimit; [done |]. intros [= <-].
  rewrite slices_concat. apply take_ge.
  set (size := Z.to_nat limit). assert (0 < size)%nat by lia.
  pose proof (Nat.mul_succ_div_gt (length documents + size - 1) size) as Hdiv.
  nia.
Qed.

Lemma split_total {A} (documents : list A) limit :
  0 < limit -> exists batches, split documents limit = inr batches.
Proof. intros Hpos. unfold split. case_decide; [lia | eauto]. Qed.

Lemma batch_and_call_run documents limit call batches w :
  split documents limit = inr batches ->
  batch_and_call documents limit call w =
    match mapM_M call batches w with
    | (inr rs, w') => (inr (reassemble rs), w')
    | (inl e, w') => (inl e, w')
    end.
Proof.
  intros Hsplit. unfold batch_and_call. unfold bind at 1. unfold lift.
  rewrite Hsplit. unfold bind, ret.
  by destruct (mapM_M call batches w) as [[e | rs] w'].
Qed.

Lemma sum_usage us :
  prompt_tokens (foldr add_usage zero_usage us) = foldr Z.add 0 (prompt_tokens <$> us) /\
  total_tokens (foldr add_usage zero_usage us) = foldr Z.add 0 (total_tokens <$> us).
Proof.
  induction us as [| u us [IHp IHt]]; [done |].
  cbn [foldr fmap list_fmap add_usage prompt_tokens total_tokens].
  by rewrite IHp, IHt.
Qed.

Lemma reassemble_usage rs :
  prompt_tokens (usage (reassemble rs))
    = foldr Z.add 0 ((fun r => prompt_tokens (usage r)) <$> rs) /\
  total_tokens (usage (reassemble rs))
    = foldr Z.add 0 ((fun r => total_tokens (usage r)) <$> rs).
Proof.
  unfold reassemble. cbn [usage].
  destruct (sum_usage (usage <$> rs)) as [-> ->].
  by rewrite <- !list_fmap_compose.
Qed.

Lemma served_requests (c : Callable) batches w rs w' :
  served (invoke c) batches w rs w' ->
  exists issued,
    requests w' = requests w ++ issued /\
    Litellm.req_input <$> issued = Litellm.InList <$> batches /\
    heap w' = heap w.
Proof.
  induction 1 as [w | batch l w y w1 ys w2 Hcall _ (issued & Hreq & Hin & Hheap)].
  - exists []. by rewrite app_nil_r.
  - destruct c as [a]. simpl in Hcall.
    apply call_embed_api_returns in Hcall as (o & response & _ & _ & _ & ->).
    exists (request_for o (Litellm.InList batch) :: issued).
    rewrite Hreq, Hheap. split; [| split; [| done]].
    + cbn [requests after_request]. by rewrite <- app_assoc.
    + by rewrite !fmap_cons, Hin.
Qed.

(** C4. spec-modelled: when a request is split into sub-batches and the
    calls for them return, the usage of the response for the whole
    request is, counter by counter, the sum of what the sub-batch calls
    reported; [embed] returns that response. *)
Theorem usage_adds_up (b : BatchApiCaller) (documents : list string)
    (w : World) (batches : list (list string))
    (rs : list EmbeddingResponse) (w' : World) :
  split documents (max_chunks_per_batch b) = inr batches ->
  served (invoke (api_callable b)) batches w rs w' ->
  exists r,
    batch_chunks_and_embed b documents w = (inr r, w') /\
    prompt_tokens (usage r)
      = foldr Z.add 0 ((fun s => prompt_tokens (usage s)) <$> rs) /\
    total_tokens (usage r)
      = foldr Z.add 0 ((fun s => total_tokens (usage s)) <$> rs) /\
    forall self w0,
      _batcher self (after_debug documents w0) = (inr b, w) ->
      embed batch_chunks_and_embed self documents w0 = (inr r, w').
Proof.
  intros Hsplit Hserved. exists (reassemble rs).
  assert (Hrun : batch_chunks_and_embed b documents w = (inr (reassemble rs), w')).
  { unfold batch_chunks_and_embed. rewrite (batch_and_call_run _ _ _ _ _ Hsplit).
    apply served_mapM_M in Hserved. by rewrite Hserved. }
  destruct (reassemble_usage rs) as [Hp Ht].
  repeat split; try done.
  intros self w0 Hb. by rewrite embed_run, Hb.
Qed.

(** C5. spec-modelled: when the call for one sub-batch raises, after the
    calls for the sub-batches before it have returned, the whole request
    raises that same exception, from the batcher and from [embed] alike;
    no response is returned; and the provider has been asked once for
    each sub-batch before the failing one, at most once for the failing
    one, and never for those after it. *)
Theorem failed_sub_batch_fails_request (b : BatchApiCaller)
    (documents : list string) (w : World)
    (batches before : list (list string)) (failing : list string)
    (after : list (list string)) (rs : list EmbeddingResponse)
    (w1 : World) (e : Exn) (w2 : World) :
  split documents (max_chunks_per_batch b) = inr batches ->
  batches = before ++ failing :: after ->
  served (invoke (api_callable b)) before w rs w1 ->
  invoke (api_callable b) failing w1 = (inl e, w2) ->
  batch_chunks_and_embed b documents w = (inl e, w2) /\
  (forall self w0,
     _batcher self (after_debug documents w0) = (inr b, w) ->
     embed batch_chunks_and_embed self documents w0 = (inl e, w2)) /\
  exists issued,
    requests w2 = requests w ++ issued /\
    (Litellm.req_input <$> issued = Litellm.InList <$> before \/
     Litellm.req_input <$> issued = Litellm.InList <$> (before ++ [failing])).
Proof.
  intros Hsplit -> Hserved Hfail.
  assert (Hrun : batch_chunks_and_embed b documents w = (inl e, w2)).
  { unfold batch_chunks_and_embed. rewrite (batch_and_call_run _ _ _ _ _ Hsplit).
    by rewrite (mapM_M_fails_at _ _ _ _ _ _ _ _ _ Hserved Hfail). }
  split; [done |]. split.
  { intros self w0 Hb. by rewrite embed_run, Hb. }
  destruct (served_requests _ _ _ _ _ Hserved) as (issued & Hreq & Hin & _).
  destruct (api_callable b) as [a]. simpl in Hfail.
  pose proof (call_embed_api_frame a (Litellm.InList failing) w1) as Hframe.
  rewrite Hfail in Hframe. simpl in Hframe.
  destruct Hframe as (_ & _ & _ & _ & _ & [Hsame | (o & _ & Hone)]).
  - exists issued. rewrite Hsame. auto.
  - exists (issued ++ [request_for o (Litellm.InList failing)]).
    rewrite Hone, Hreq, <- app_assoc. split; [done |]. right.
    by rewrite !fmap_app, Hin.
Qed.

(** ** Order of the embeddings *)

Section Pointwise.
Variable vec : string -> EmbeddingVector.
Hypothesis provider_embeds : embeds_with vec.
Variables (a : nat) (o : LiteLLM).
Hypothesis no_clash : kwargs_clash (extra_options o) = false.

Lemma call_embed_api_pointwise batch w :
  heap w !! a = Some o ->
  exists r, call_embed_api a (Litellm.InList batch) w
              = (inr r, after_request o (Litellm.InList batch) w) /\
            embedded_by vec batch r.
Proof.
  intros Ho. rewrite (call_embed_api_run _ _ _ _ Ho no_clash).
  destruct (provider_embeds (requests w) (request_for o (Litellm.InList batch)))
    as (response & -> & Hall). simpl in Hall.
  assert (embedding_fields (Litellm.data response) = Some (vec <$> batch)) as ->.
  { apply embedding_fields_Forall2, Forall2_fmap_r. by apply Forall2_flip. }
  eexists. split; [reflexivity | done].
Qed.

Lemma served_pointwise batches w :
  heap w !! a = Some o ->
  exists rs w',
    served (invoke (call_embed_api_of a)) batches w rs w' /\
    Forall2 (embedded_by vec) batches rs /\ heap w' = heap w.
Proof.
  revert w. induction batches as [| batch batches IH]; intros w Ho.
  - exists [], w. repeat split; constructor.
  - destruct (call_embed_api_pointwise batch w Ho) as (r & Hcall & Hr).
    destruct (IH (after_request o (Litellm.InList batch) w) Ho)
      as (rs & w' & Hserved & Hall & Hheap).
    exists (r :: rs), w'. split; [| split].
    + econstructor; eauto.
    + by constructor.
    + by rewrite Hheap.
Qed.

Lemma reassemble_pointwise batches rs :
  Forall2 (embedded_by vec) batches rs ->
  embeddings (reassemble rs) = vec <$> concat batches.
Proof.
  unfold reassemble. cbn [embeddings].
  induction 1 as [| batch r batches rs Hr _ IH]; [done |].
  rewrite fmap_cons. cbn [concat]. by rewrite fmap_app, IH, Hr.
Qed.

Lemma complete_pointwise batches completion filed w :
  heap w !! a = Some o ->
  (forall i r, filed !! i = Some r ->
     exists batch, batches !! i = Some batch /\ embedded_by vec batch r) ->
  exists filed' w',
    complete (invoke (call_embed_api_of a)) batches completion filed w
      = (inr filed', w') /\
    heap w' = heap w /\
    (forall i r, filed' !! i = Some r ->
       exists batch, batches !! i = Some batch /\ embedded_by vec batch r) /\
    (forall i, is_Some (filed !! i) -> is_Some (filed' !! i)) /\
    (forall i, i ∈ completion -> (i < length batches)%nat ->
       is_Some (filed' !! i)).
Proof.
  revert filed w.
  induction completion as [| i later IH]; intros filed w Ho Hfiled.
  - exists filed, w. simpl. unfold ret. repeat split; try done.
    intros i Hi. by apply elem_of_nil in Hi.
  - cbn [complete]. destruct (batches !! i) as [batch |] eqn:Hi.
    + destruct (call_embed_api_pointwise batch w Ho) as (r & Hcall & Hr).
      unfold bind at 1. cbn [invoke]. rewrite Hcall.
      destruct (IH (<[i := r]> filed)
                   (after_request o (Litellm.InList batch) w) Ho)
        as (filed' & w' & Hrun & Hheap & Hall & Hkeep & Hdone).
      { intros j rj. destruct (decide (i = j)) as [<- | Hne].
        - rewrite lookup_insert_eq. intros [= <-]. eauto.
        - rewrite lookup_insert_ne by done. apply Hfiled. }
      exists filed', w'. split; [done |]. split; [by rewrite Hheap |].
      split; [done |]. split.
      * intros j Hj. apply Hkeep.
        destruct (decide (i = j)) as [<- | Hne].
        { rewrite lookup_insert_eq. eauto. }
        { by rewrite lookup_insert_ne. }
      * intros j Hj Hlt. apply elem_of_cons in Hj as [-> | Hj]; [| eauto].
        apply Hkeep. rewrite lookup_insert_eq. eauto.
    + destruct (IH filed w Ho Hfiled)
        as (filed' & w' & Hrun & Hheap & Hall & Hkeep & Hdone).
      exists filed', w'. repeat split; try done.
      intros j Hj Hlt. apply elem_of_cons in Hj as [-> | Hj]; [| eauto].
      apply lookup_ge_None in Hi. lia.
Qed.

Lemma gather_pointwise batches (filed : gmap nat EmbeddingResponse) :
  (forall i r, filed !! i = Some r ->
     exists batch, batches !! i = Some batch /\ embedded_by vec batch r) ->
  (forall i, (i < length batches)%nat -> is_Some (filed !! i)) ->
  exists rs, gather (length batches) filed = Some rs /\
             Forall2 (embedded_by vec) batches rs.
Proof.
  intros Hall Hdone. unfold gather.
  destruct (mapM (fun i => filed !! i) (seq 0 (length batches)))
    as [rs |] eqn:Hrs.
  - exists rs. split; [done |]. apply mapM_Some_1 in Hrs.
    apply Forall2_same_length_lookup_2.
    + apply Forall2_length in Hrs. rewrite length_seq in Hrs. done.
    + intros i batch r Hbatch Hr.
      destruct (Forall2_lookup_r _ _ _ _ _ Hrs Hr) as (j & Hj & Hfiled).
      apply lookup_seq in Hj as [-> _]. simpl in Hfiled.
      destruct (Hall _ _ Hfiled) as (batch' & Hbatch' & Hm). congruence.
  - exfalso. apply mapM_None in Hrs.
    apply Exists_exists in Hrs as (i & Hi & Hnone).
    apply elem_of_seq in Hi. destruct (Hdone i) as [r Hr]; [lia |]. congruence.
Qed.

End Pointwise.

(** With a sound store, a known provider yields the batcher. *)
Lemma batcher_succeeds self w o resolved limit :
  cache_sound w -> heap w !! self = Some o ->
  Litellm.get_llm_provider (model o) = inr resolved ->
  provider_limit (provider_of resolved) = Some limit ->
  exists w1 o1,
    _batcher self w = (inr (mkBatchApiCaller limit (call_embed_api_of self)), w1) /\
    heap w1 !! self = Some o1 /\
    extra_options o1 = extra_options o.
Proof.
  intros Hsound Ho Hres Hlimit.
  destruct (_batcher_slot o) as [b |] eqn:Hb.
  - rewrite (batcher_run_cached _ _ _ _ Ho Hb). exists w, o.
    destruct (Hsound _ _ _ Ho Hb) as (Hcall & resolved' & Hres' & Hlimit').
    assert (b = mkBatchApiCaller limit (call_embed_api_of self)) as ->; [| done].
    destruct b as [n c]. simpl in *. congruence.
  - rewrite (batcher_run_empty _ _ _ Ho Hb), (max_chunks_run _ _ _ Ho), Hres.
    simpl. rewrite Hlimit. eexists _, _. split; [reflexivity |].
    simpl. by rewrite lookup_alter_eq, Ho.
Qed.

(** C3. spec-modelled: with a provider that answers each request entry
    by entry in the order of the request's documents, the vector at
    position [i] of what [embed] returns is the vector of the document at
    position [i] of its input, however many sub-batches the input is cut
    into; and when the sub-batch calls complete in any order whatever,
    filing each response under its submission index gives the same
    sequence. *)
Theorem embed_keeps_document_order (vec : string -> EmbeddingVector)
    (self : nat) (w : World) (o : LiteLLM) resolved (limit : Z)
    (documents : list string) :
  cache_sound w ->
  heap w !! self = Some o ->
  kwargs_clash (extra_options o) = false ->
  Litellm.get_llm_provider (model o) = inr resolved ->
  provider_limit (provider_of resolved) = Some limit ->
  embeds_with vec ->
  (exists r w',
     embed batch_chunks_and_embed self documents w = (inr r, w') /\
     forall i, embeddings r !! i = vec <$> documents !! i) /\
  (forall completion batches,
     split documents limit = inr batches ->
     completion ≡ₚ seq 0 (length batches) ->
     exists r w',
       embed (batch_chunks_and_embed_concurrent completion) self documents w
         = (inr r, w') /\
       forall i, embeddings r !! i = vec <$> documents !! i).
Proof.
  intros Hsound Ho Hclash Hres Hlimit Hvec.
  destruct (batcher_succeeds self (after_debug documents w) o resolved limit)
    as (w1 & o1 & Hb & Ho1 & Hopts); [done.. |].
  rewrite <- Hopts in Hclash.
  destruct (split_total documents limit) as [batches Hsplit].
  { by eapply provider_limit_positive. }
  pose proof (split_concat _ _ _ Hsplit) as Hconcat.
  split.
  - destruct (served_pointwise vec Hvec self o1 Hclash batches w1 Ho1)
      as (rs & w' & Hserved & Hall & _).
    exists (reassemble rs), w'. split.
    + rewrite embed_run, Hb. unfold batch_chunks_and_embed. cbn [max_chunks_per_batch api_callable].
      rewrite (batch_and_call_run _ _ _ _ _ Hsplit).
      apply served_mapM_M in Hserved. by rewrite Hserved.
    + intros i. rewrite (reassemble_pointwise vec batches rs Hall), Hconcat.
      apply list_lookup_fmap.
  - intros completion batches' Hsplit' Hperm.
    rewrite Hsplit in Hsplit'. injection Hsplit' as <-.
    destruct (complete_pointwise vec Hvec self o1 Hclash batches completion ∅ w1 Ho1)
      as (filed & w' & Hrun & _ & Hall & _ & Hdone).
    { intros i r Hi. by rewrite lookup_empty in Hi. }
    destruct (gather_pointwise vec batches filed Hall) as (rs & Hrs & Hmatch).
    { intros i Hi. apply Hdone; [| done].
      rewrite Hperm. apply elem_of_seq. lia. }
    exists (reassemble rs), w'. split.
    + rewrite embed_run, Hb. unfold batch_chunks_and_embed_concurrent,
        batch_and_call_concurrent. cbn [max_chunks_per_batch api_callable].
      unfold bind at 1. unfold lift. rewrite Hsplit.
      unfold bind at 1. rewrite Hrun. by rewrite Hrs.
    + intros i. rewrite (reassemble_pointwise vec batches rs Hmatch), Hconcat.
      apply list_lookup_fmap.
Qed.

(** ** Number of embeddings *)

Lemma embedding_fields_length (entries : list Litellm.DataEntry) vs :
  embedding_fields entries = Some vs -> length vs = length entries.
Proof. intros Hvs. symmetry. by eapply length_mapM. Qed.

Lemma served_lengths (c : Callable) batches w rs w' :
  one_entry_per_document ->
  served (invoke c) batches w rs w' ->
  Forall2 (fun (batch : list string) r => length (embeddings r) = length batch)
          batches rs.
Proof.
  intros Hcount. induction 1 as [| batch l w y w1 ys w2 Hcall _ IH]; constructor; [| done].
  destruct c as [a]. simpl in Hcall.
  apply call_embed_api_returns in Hcall as (o & response & _ & Hresp & Hvs & _).
  rewrite (embedding_fields_length _ _ Hvs). by rewrite (Hcount _ _ _ Hresp).
Qed.

Lemma reassemble_length batches rs :
  Forall2 (fun (batch : list string) r => length (embeddings r) = length batch)
          batches rs ->
  length (embeddings (reassemble rs)) = length (concat batches).
Proof.
  unfold reassemble. cbn [embeddings].
  induction 1 as [| batch r batches rs Hr _ IH]; [done |].
  rewrite fmap_cons. cbn [concat]. rewrite !length_app. congruence.
Qed.

(** C6, as amended.  spec-modelled for the whole request: the response of
    one call has as many embeddings as the provider's answer has entries;
    when the provider answers every request with one entry per document,
    the response of each sub-batch call and the response for the whole
    request, from the batcher and from [embed], have as many embeddings as
    the call had input documents. *)
Theorem embeddings_count :
  (forall self input w r w',
     call_embed_api self input w = (inr r, w') ->
     exists o response,
       heap w !! self = Some o /\
       Litellm.aembedding (requests w) (request_for o input) = inr response /\
       length (embeddings r) = length (Litellm.data response)) /\
  (one_entry_per_document ->
     (forall self input w r w',
        call_embed_api self input w = (inr r, w') ->
        length (embeddings r) = Litellm.input_count input) /\
     (forall b documents w r w',
        batch_chunks_and_embed b documents w = (inr r, w') ->
        length (embeddings r) = length documents) /\
     (forall self documents w r w',
        embed batch_chunks_and_embed self documents w = (inr r, w') ->
        length (embeddings r) = length documents)).
Proof.
  assert (Hone : forall self input w r w',
            call_embed_api self input w = (inr r, w') ->
            exists o response,
              heap w !! self = Some o /\
              Litellm.aembedding (requests w) (request_for o input) = inr response /\
              length (embeddings r) = length (Litellm.data response)).
  { intros self input w r w' Hcall.
    destruct (call_embed_api_returns _ _ _ _ _ Hcall)
      as (o & response & Ho & Hresp & Hvs & _).
    exists o, response. repeat split; try done.
    by apply embedding_fields_length. }
  split; [done |]. intros Hcount.
  assert (Hbatch : forall b documents w r w',
            batch_chunks_and_embed b documents w = (inr r, w') ->
            length (embeddings r) = length documents).
  { intros b documents w r w'. unfold batch_chunks_and_embed.
    destruct (split documents (max_chunks_per_batch b)) as [e | batches] eqn:Hsplit.
    { unfold batch_and_call, bind, lift. by rewrite Hsplit. }
    rewrite (batch_and_call_run _ _ _ _ _ Hsplit).
    destruct (mapM_M _ batches w) as [[e | rs] w1] eqn:Hrun; [done |].
    intros [= <- <-]. apply served_mapM_M in Hrun.
    rewrite (reassemble_length batches rs).
    - by rewrite (split_concat _ _ _ Hsplit).
    - by eapply served_lengths. }
  split; [| split; [done |]].
  - intros self input w r w' Hcall.
    destruct (Hone _ _ _ _ _ Hcall) as (o & response & _ & Hresp & ->).
    by rewrite (Hcount _ _ _ Hresp).
  - intros self documents w r w'. rewrite embed_run.
    destruct (_batcher self (after_debug documents w)) as [[e | b] w1]; [done |].
    apply Hbatch.
Qed.

(** An exception of the provider leaves [call_embed_api] as it is. *)
Lemma call_embed_api_propagates self input w o e :
  heap w !! self = Some o ->
  kwargs_clash (extra_options o) = false ->
  Litellm.aembedding (requests w) (request_for o input) = inl e ->
  call_embed_api self input w = (inl e, after_request o input w).
Proof.
  intros Ho Hclash He. by rewrite (call_embed_api_run _ _ _ _ Ho Hclash), He.
Qed.

(** ** Later requests on the same instance *)

Lemma mapM_M_keeps {A B X : Type} (g : World -> X) (f : A -> M B) :
  (forall x w, g (f x w).2 = g w) ->
  forall l w, g (mapM_M f l w).2 = g w.
Proof.
  intros Hf l. induction l as [| x l IH]; intros w; [done |].
  simpl. unfold bind at 1. pose proof (Hf x w) as Hx.
  destruct (f x w) as [[e | y] w1]; [done |]. simpl in Hx.
  unfold bind at 1. pose proof (IH w1) as Hl.
  destruct (mapM_M f l w1) as [[e | ys] w2]; simpl in *; congruence.
Qed.

Lemma batch_chunks_and_embed_keeps {X : Type} (g : World -> X) b documents :
  (forall self input w, g (call_embed_api self input w).2 = g w) ->
  forall w, g (batch_chunks_and_embed b documents w).2 = g w.
Proof.
  intros Hcall w. unfold batch_chunks_and_embed, batch_and_call.
  unfold bind at 1. unfold lift.
  destruct (split documents (max_chunks_per_batch b)) as [e | batches]; [done |].
  unfold bind at 1.
  pose proof (mapM_M_keeps g (invoke (api_callable b))) as Hkeep.
  specialize (Hkeep (fun batch w0 =>
    match api_callable b as c
      return g (invoke c batch w0).2 = g w0 with
    | call_embed_api_of a => Hcall a (Litellm.InList batch) w0
    end) batches w).
  by destruct (mapM_M _ batches w) as [[e | rs] w1].
Qed.

(** Once the batcher is stored, a request through [embed] resolves no
    provider and leaves the batcher where it is. *)
Lemma embed_reuses_batcher self documents w o b :
  heap w !! self = Some o -> _batcher_slot o = Some b ->
  let w' := (embed batch_chunks_and_embed self documents w).2 in
  resolutions w' = resolutions w /\ heap w' = heap w.
Proof.
  intros Ho Hb. simpl. rewrite embed_run.
  rewrite (batcher_run_cached self (after_debug documents w) o b Ho Hb).
  split.
  - rewrite (batch_chunks_and_embed_keeps resolutions); [done |].
    intros. apply call_embed_api_frame.
  - rewrite (batch_chunks_and_embed_keeps heap); [done |].
    intros. apply call_embed_api_frame.
Qed.

(** Requests through [embed] keep the store sound. *)
Lemma cache_sound_embed self documents w :
  cache_sound w ->
  cache_sound (embed batch_chunks_and_embed self documents w).2.
Proof.
  intros Hsound. rewrite embed_run.
  assert (Hlogged : cache_sound (after_debug documents w)) by done.
  pose proof (cache_sound_batcher self _ Hlogged) as Hb.
  destruct (_batcher self (after_debug documents w)) as [[e | b] w1]; [done |].
  eapply cache_sound_heap; [| exact Hb].
  apply (batch_chunks_and_embed_keeps heap). intros. apply call_embed_api_frame.
Qed.

Lemma cache_sound_boot m : cache_sound (boot m).
Proof.
  apply cache_sound_empty_slots. intros a o. simpl.
  intros [_ <-]%lookup_singleton_Some. done.
Qed.

Lemma entry_of_embedding i d : entry_of i d !! "embedding" = Some (length_vector d).
Proof.
  unfold entry_of. rewrite !lookup_insert_ne by done. apply lookup_singleton_eq.
Qed.

End Proofs.

(** * The properties on concrete runs *)

Lemma faithful_api_embeds provider :
  embeds_with (api := faithful_api provider) length_vector.
Proof.
  intros history r. eexists. split; [reflexivity |]. simpl.
  apply Forall2_same_length_lookup_2; [by rewrite length_imap |].
  intros i d e Hd. rewrite list_lookup_imap, Hd. simpl. intros [= <-].
  apply entry_of_embedding.
Qed.

Lemma faithful_api_counts provider :
  one_entry_per_document (api := faithful_api provider).
Proof.
  intros history r response [= <-]. simpl. rewrite length_imap.
  by destruct (Litellm.req_input r).
Qed.

Lemma max_chunks_per_batch_known_witness :
  (_max_chunks_per_batch (api := faithful_api "cohere") 0
     (boot "cohere/embed-english-v3.0")).1 = inr 96.
Proof.
  apply (max_chunks_per_batch_known (api := faithful_api "cohere") 0
           (boot "cohere/embed-english-v3.0") (fresh "cohere/embed-english-v3.0")
           ("cohere/embed-english-v3.0", "cohere", None, None) "cohere" 96).
  - reflexivity.
  - reflexivity.
  - reflexivity.
  - apply list_elem_of_here.
Defined.

Lemma unknown_provider_before_any_call_witness :
  embed (api := faithful_api "unknown-xyz")
        (batch_chunks_and_embed (api := faithful_api "unknown-xyz"))
        0 ["a"; "bb"] (boot "unknown-xyz/model")
    = (inl (UnknownProviderError "unknown-xyz"),
       after_resolution (fresh "unknown-xyz/model")
         (after_debug ["a"; "bb"] (boot "unknown-xyz/model"))) /\
  requests (embed (api := faithful_api "unknown-xyz")
                  (batch_chunks_and_embed (api := faithful_api "unknown-xyz"))
                  0 ["a"; "bb"] (boot "unknown-xyz/model")).2 = [].
Proof.
  apply (unknown_provider_before_any_call (api := faithful_api "unknown-xyz")
           (batch_chunks_and_embed (api := faithful_api "unknown-xyz"))
           0 (boot "unknown-xyz/model") (fresh "unknown-xyz/model")
           ("unknown-xyz/model", "unknown-xyz", None, None) ["a"; "bb"]).
  - apply cache_sound_boot.
  - reflexivity.
  - reflexivity.
  - simpl. intros Hin.
    repeat (apply elem_of_cons in Hin as [Hin | Hin]; [discriminate |]).
    by apply elem_of_nil in Hin.
Defined.

Lemma embed_keeps_document_order_witness :
  exists r w',
    embed (api := faithful_api "cohere")
          (batch_chunks_and_embed (api := faithful_api "cohere"))
          0 two_hundred_documents (boot "cohere/embed-english-v3.0") = (inr r, w') /\
    forall i, embeddings r !! i = length_vector <$> two_hundred_documents !! i.
Proof.
  apply (embed_keeps_document_order (api := faithful_api "cohere") length_vector
           0 (boot "cohere/embed-english-v3.0") (fresh "cohere/embed-english-v3.0")
           ("cohere/embed-english-v3.0", "cohere", None, None) 96
           two_hundred_documents).
  - apply cache_sound_boot.
  - reflexivity.
  - reflexivity.
  - reflexivity.
  - reflexivity.
  - apply faithful_api_embeds.
Defined.

Lemma usage_adds_up_witness :
  exists r w',
    batch_chunks_and_embed (api := faithful_api "openai") pairs six_documents
      (boot "openai/text-embedding-3-small") = (inr r, w') /\
    usage r = mkUsage 30 36.
Proof.
  edestruct (usage_adds_up (api := faithful_api "openai") pairs six_documents
               (boot "openai/text-embedding-3-small")
               [["a"; "bb"]; ["ccc"; "dddd"]; ["eeeee"; "f"]])
    as (r & Hrun & Hprompt & Htotal & _).
  - reflexivity.
  - apply served_mapM_M. vm_compute. reflexivity.
  - exists r. eexists. split; [exact Hrun |].
    destruct r as [vs [p t]]. simpl in Hprompt, Htotal. simpl.
    rewrite Hprompt, Htotal. reflexivity.
Defined.

Lemma failed_sub_batch_fails_request_witness :
  (batch_chunks_and_embed (api := flaky_api) pairs six_documents
     (boot "cohere/embed-english-v3.0")).1 = inl (ExternalError "rate limit").
Proof.
  edestruct (failed_sub_batch_fails_request (api := flaky_api) pairs six_documents
               (boot "cohere/embed-english-v3.0")
               [["a"; "bb"]; ["ccc"; "dddd"]; ["eeeee"; "f"]]
               [["a"; "bb"]] ["ccc"; "dddd"] [["eeeee"; "f"]])
    as (Hrun & _).
  - reflexivity.
  - reflexivity.
  - apply served_mapM_M. vm_compute. reflexivity.
  - vm_compute. reflexivity.
  - rewrite Hrun. reflexivity.
Defined.

Lemma call_embed_api_translates_witness :
  exists r,
    (call_embed_api (api := faithful_api "openai") 0 (Litellm.InList ["a"; "bb"])
       (boot "openai/text-embedding-3-small")).1 = inr r /\
    embeddings r = [length_vector "a"; length_vector "bb"] /\
    usage r = mkUsage 10 12.
Proof.
  destruct (call_embed_api_translates (api := faithful_api "openai") 0
              (Litellm.InList ["a"; "bb"]) (boot "openai/text-embedding-3-small")
              (fresh "openai/text-embedding-3-small")
              (faithful_answer metered
                 (request_for (fresh "openai/text-embedding-3-small")
                              (Litellm.InList ["a"; "bb"]))))
    as (r & Hrun & Hfields & Husage & _).
  - reflexivity.
  - reflexivity.
  - reflexivity.
  - repeat constructor; eexists; apply entry_of_embedding.
  - exists r. split; [exact Hrun |].
    vm_compute in Hrun. injection Hrun as <-. split; reflexivity.
Defined.

Lemma batcher_built_once_witness :
  heap (_batcher (api := faithful_api "openai") 0
          (boot "openai/text-embedding-3-small")).2 !! 0%nat
    = Some (mkLiteLLM "litellm" "openai/text-embedding-3-small" None []
              (Some (mkBatchApiCaller 2048 (call_embed_api_of 0)))) /\
  (_batcher (api := faithful_api "openai") 0
     (_batcher (api := faithful_api "openai") 0
        (boot "openai/text-embedding-3-small")).2).1
    = inr (mkBatchApiCaller 2048 (call_embed_api_of 0)) /\
  resolutions (_batcher (api := faithful_api "openai") 0
                 (_batcher (api := faithful_api "openai") 0
                    (boot "openai/text-embedding-3-small")).2).2
    = ["openai/text-embedding-3-small"].
Proof.
  destruct (batcher_built_once (api := faithful_api "openai") 0
              (boot "openai/text-embedding-3-small")
              (fresh "openai/text-embedding-3-small")
              (mkBatchApiCaller 2048 (call_embed_api_of 0))
              (_batcher (api := faithful_api "openai") 0
                 (boot "openai/text-embedding-3-small")).2)
    as (_ & Hheap & Hagain & Hres & _).
  - reflexivity.
  - reflexivity.
  - reflexivity.
  - split; [exact Hheap |]. split; [by rewrite Hagain | exact Hres].
Defined.

(** C6, the claim as written: a provider that answers two documents with a
    single entry makes [call_embed_api] return one embedding for two
    documents, so the number of embeddings is not always the number of
    input documents. *)
Lemma embeddings_count_counterexample :
  ~ (forall (api : Litellm.Api) self input w r w',
       call_embed_api self input w = (inr r, w') ->
       length (embeddings r) = Litellm.input_count input).
Proof.
  intros Hclaim.
  specialize (Hclaim short_api 0%nat (Litellm.InList ["a"; "bb"])
                (boot "openai/text-embedding-3-small")
                (mkEmbeddingResponse [length_vector "a"] (mkUsage 0 0))
                (after_request (fresh "openai/text-embedding-3-small")
                               (Litellm.InList ["a"; "bb"])
                               (boot "openai/text-embedding-3-small"))).
  discriminate Hclaim. vm_compute. reflexivity.
Qed.


Lemma embeddings_count_witness :
  exists r w',
    batch_chunks_and_embed (api := faithful_api "openai") pairs six_documents
      (boot "openai/text-embedding-3-small") = (inr r, w') /\
    length (embeddings r) = 6%nat.
Proof.
  destruct (batch_chunks_and_embed (api := faithful_api "openai") pairs
              six_documents (boot "openai/text-embedding-3-small"))
    as [[e | r] w'] eqn:Hrun.
  - vm_compute in Hrun. discriminate Hrun.
  - exists r, w'. split; [reflexivity |].
    exact (proj1 (proj2 (proj2 (embeddings_count (api := faithful_api "openai"))
                           (faithful_api_counts "openai")))
             pairs six_documents _ r w' Hrun).
Defined.

(** The second of three sub-batch calls fails: [embed] raises the
    provider's exception after two requests. *)
Example embed_second_of_three_fails :
  let run := embed (api := flaky_api) (batch_chunks_and_embed (api := flaky_api))
                   0 two_hundred_documents (boot "cohere/embed-english-v3.0") in
  run.1 = inl (ExternalError "rate limit") /\ length (requests run.2) = 2%nat.
Proof. vm_compute. split; reflexivity. Qed.

(** Three sub-batches, each reported as [{10, 12}], add up to [{30, 36}]. *)
Example embed_three_sub_batches_usage :
  match (embed (api := faithful_api "cohere")
               (batch_chunks_and_embed (api := faithful_api "cohere"))
               0 two_hundred_documents (boot "cohere/embed-english-v3.0")).1 with
  | inr r => usage r = mkUsage 30 36 /\ length (embeddings r) = 200%nat
  | inl _ => False
  end.
Proof. vm_compute. split; reflexivity. Qed.

(** The empty list goes through unchecked: no sub-batch, no request. *)
Example embed_empty_list :
  let run := embed (api := faithful_api "openai")
                   (batch_chunks_and_embed (api := faithful_api "openai"))
                   0 [] (boot "openai/text-embedding-3-small") in
  run.1 = inr (mkEmbeddingResponse [] (mkUsage 0 0)) /\ requests run.2 = [].
Proof. vm_compute. split; reflexivity. Qed.

(** Completion in the order 2, 0, 1 files the responses as submitted. *)
Example concurrent_completion_keeps_order :
  (batch_chunks_and_embed_concurrent (api := faithful_api "openai") [2; 0; 1]%nat
     pairs six_documents (boot "openai/text-embedding-3-small")).1
  = (batch_chunks_and_embed (api := faithful_api "openai")
       pairs six_documents (boot "openai/text-embedding-3-small")).1.
Proof. vm_compute. reflexivity. Qed.

(** * Further properties of the methods *)

Section Coverage.
Context {api : Litellm.Api}.

(** X1. When the provider's response has an entry without an [embedding]
    key, [call_embed_api] raises [KeyError] for that key and returns no
    embeddings at all; the request has been sent by then. *)
Theorem call_embed_api_missing_embedding_key (self : nat)
    (input : Litellm.Input) (w : World) (o : LiteLLM)
    (response : Litellm.EmbeddingResponse) :
  heap w !! self = Some o ->
  kwargs_clash (extra_options o) = false ->
  Litellm.aembedding (requests w)
    (Litellm.mkRequest true (model o) input (extra_options o)) = inr response ->
  Exists (fun d : Litellm.DataEntry => d !! "embedding" = None)
         (Litellm.data response) ->
  (call_embed_api self input w).1 = inl (KeyError "embedding") /\
  requests (call_embed_api self input w).2
    = requests w ++ [Litellm.mkRequest true (model o) input (extra_options o)].
Proof.
  intros Ho Hclash Hresp Hmissing.
  rewrite (call_embed_api_run _ _ _ _ Ho Hclash). unfold request_for. rewrite Hresp.
  assert (embedding_fields (Litellm.data response) = None) as ->; [| done].
  unfold embedding_fields. by apply mapM_None.
Qed.

(** X2. When [extra_options] has a key [model] or [input], the call
    expression of [call_embed_api] raises [TypeError] before the library is
    entered: no request is sent, and the only change to the process is the
    flag, which is already set. *)
Theorem call_embed_api_duplicate_keyword (self : nat) (input : Litellm.Input)
    (w : World) (o : LiteLLM) :
  heap w !! self = Some o ->
  kwargs_clash (extra_options o) = true ->
  exists msg,
    call_embed_api self input w
      = (inl (TypeError msg), set_suppress_debug_info true w).
Proof.
  intros Ho Hclash. unfold call_embed_api. unfold_monad. simpl.
  rewrite Ho, Hclash. eauto.
Qed.

(** X3. An exception raised by the provider call leaves [call_embed_api]
    unchanged, neither caught nor wrapped, after exactly one request. *)
Theorem call_embed_api_provider_error (self : nat) (input : Litellm.Input)
    (w : World) (o : LiteLLM) (e : Exn) :
  heap w !! self = Some o ->
  kwargs_clash (extra_options o) = false ->
  Litellm.aembedding (requests w)
    (Litellm.mkRequest true (model o) input (extra_options o)) = inl e ->
  (call_embed_api self input w).1 = inl e /\
  requests (call_embed_api self input w).2
    = requests w ++ [Litellm.mkRequest true (model o) input (extra_options o)].
Proof.
  intros Ho Hclash He.
  rewrite (call_embed_api_run _ _ _ _ Ho Hclash). unfold request_for. by rewrite He.
Qed.

(** X4. A call of [call_embed_api] that returns has sent exactly one
    request, made of the instance's model, the documents as they were passed
    (a single string stays a single string) and [extra_options] as they
    are. *)
Theorem call_embed_api_one_request (self : nat) (input : Litellm.Input)
    (w : World) (r : EmbeddingResponse) (w' : World) :
  call_embed_api self input w = (inr r, w') ->
  exists o,
    heap w !! self = Some o /\
    requests w' = requests w ++ [Litellm.mkRequest true (model o) input (extra_options o)].
Proof.
  intros Hcall.
  apply call_embed_api_returns in Hcall as (o & response & Ho & _ & _ & ->).
  by exists o.
Qed.

(** X5. Whatever its outcome, [call_embed_api] leaves every instance, the
    standard output, the debug log and the record of provider resolutions
    as they were, and sends at most one request, for the input it was
    given. *)
Theorem call_embed_api_changes_flag_and_trace_only (self : nat)
    (input : Litellm.Input) (w : World) :
  let w' := (call_embed_api self input w).2 in
  heap w' = heap w /\ stdout w' = stdout w /\ debug_log w' = debug_log w /\
  resolutions w' = resolutions w /\
  (requests w' = requests w \/
   exists q, requests w' = requests w ++ [q] /\ Litellm.req_input q = input).
Proof.
  destruct (call_embed_api_frame self input w)
    as (_ & Hheap & Hres & Hout & Hlog & Hreq).
  repeat split; try done.
  destruct Hreq as [Hsame | (o & _ & Hone)]; [by left |].
  right. by exists (request_for o input).
Qed.

(** X6. When the library itself fails to resolve the model, its exception,
    not [UnknownProviderError], leaves [_max_chunks_per_batch], [_batcher]
    and [embed] alike, after the model was printed and, unless the flag
    suppresses it, the library's own notice; no request is sent and nothing
    is cached. *)
Theorem resolution_failure_propagates {R : Type}
    (bce : BatchApiCaller -> list string -> M R)
    (self : nat) (w : World) (o : LiteLLM) (e : Exn) (documents : list string) :
  cache_sound w ->
  heap w !! self = Some o ->
  Litellm.get_llm_provider (model o) = inl e ->
  _max_chunks_per_batch self w = (inl e, after_failed_resolution o w) /\
  _batcher self w = (inl e, after_failed_resolution o w) /\
  embed bce self documents w
    = (inl e, after_failed_resolution o (after_debug documents w)) /\
  requests (embed bce self documents w).2 = requests w /\
  heap (embed bce self documents w).2 = heap w.
Proof.
  intros Hsound Ho He.
  assert (Hslot : _batcher_slot o = None).
  { destruct (_batcher_slot o) as [b |] eqn:Hb; [| done].
    destruct (Hsound _ _ _ Ho Hb) as (_ & resolved & Hres & _). congruence. }
  assert (Hmax : forall w0, heap w0 !! self = Some o ->
            _max_chunks_per_batch self w0 = (inl e, after_failed_resolution o w0)).
  { intros w0 Ho0. by rewrite (max_chunks_run _ _ _ Ho0), He. }
  assert (Hbatcher : forall w0, heap w0 !! self = Some o ->
            _batcher self w0 = (inl e, after_failed_resolution o w0)).
  { intros w0 Ho0. by rewrite (batcher_run_empty _ _ _ Ho0 Hslot), Hmax. }
  split; [by apply Hmax |]. split; [by apply Hbatcher |].
  rewrite embed_run. by rewrite Hbatcher.
Qed.

(** X7. An access to [_batcher] that raises stores nothing: the instances
    are as before, and the next access resolves the provider again and
    raises the same exception. *)
Theorem failed_access_is_not_cached (self : nat) (w : World) (o : LiteLLM)
    (e : Exn) (w1 : World) :
  heap w !! self = Some o ->
  _batcher self w = (inl e, w1) ->
  heap w1 = heap w /\
  (_batcher self w1).1 = inl e /\
  resolutions (_batcher self w1).2 = resolutions w ++ [model o; model o].
Proof.
  intros Ho Hrun.
  destruct (_batcher_slot o) as [b |] eqn:Hb.
  { by rewrite (batcher_run_cached _ _ _ _ Ho Hb) in Hrun. }
  assert (Hfail : forall w0, heap w0 !! self = Some o ->
            (_batcher self w0).1 = inl e /\
            heap (_batcher self w0).2 = heap w0 /\
            resolutions (_batcher self w0).2 = resolutions w0 ++ [model o]).
  { intros w0 Ho0. rewrite (batcher_run_empty _ _ _ Ho0 Hb).
    rewrite (batcher_run_empty _ _ _ Ho Hb) in Hrun.
    rewrite (max_chunks_run _ _ _ Ho0). rewrite (max_chunks_run _ _ _ Ho) in Hrun.
    simpl in *.
    destruct (Litellm.get_llm_provider (model o)) as [e' | resolved].
    - by injection Hrun as -> _.
    - destruct (provider_limit (provider_of resolved)); [done |].
      by injection Hrun as <- _. }
  destruct (Hfail w Ho) as (_ & Hheap & Hres). rewrite Hrun in Hheap, Hres.
  simpl in Hheap, Hres.
  assert (Ho1 : heap w1 !! self = Some o) by (by rewrite Hheap).
  destruct (Hfail w1 Ho1) as (Hagain & _ & Hres1).
  split; [done |]. split; [done |].
  by rewrite Hres1, Hres, <- app_assoc.
Qed.

(** X8. An access to [_batcher] creates and removes no instance and
    changes none but its own: every address holds what it held, except that
    a successful first access fills the slot of the accessed instance, whose
    fields stay as they are. *)
Theorem batcher_changes_own_slot_only (self : nat) (w : World) (a : nat) :
  heap (_batcher self w).2 !! a = heap w !! a \/
  (a = self /\
   exists o b,
     heap w !! self = Some o /\ _batcher_slot o = None /\
     (_batcher self w).1 = inr b /\
     heap (_batcher self w).2 !! self
       = Some (mkLiteLLM (implementation o) (model o) (api_key_name o)
                         (extra_options o) (Some b))).
Proof.
  destruct (heap w !! self) as [o |] eqn:Ho.
  - destruct (_batcher_slot o) as [b |] eqn:Hb.
    + rewrite (batcher_run_cached _ _ _ _ Ho Hb). by left.
    + destruct (_batcher self w) as [[e | b] w1] eqn:Hrun.
      * left. rewrite (batcher_run_empty _ _ _ Ho Hb) in Hrun.
        pose proof (max_chunks_heap self w) as Hheap.
        destruct (_max_chunks_per_batch self w) as [[e' | n] w']; [| done].
        injection Hrun as _ <-. simpl in *. by rewrite Hheap.
      * destruct (batcher_first_access _ _ _ _ _ Ho Hb Hrun)
          as (resolved & n & _ & _ & _ & ->).
        simpl. destruct (decide (self = a)) as [<- | Hne].
        { right. split; [done |]. exists o, b.
          rewrite lookup_alter_eq, Ho. done. }
        { left. by rewrite lookup_alter_ne. }
  - left. unfold _batcher. unfold_monad. by rewrite Ho.
Qed.

(** X9. Whatever [_max_chunks_per_batch] returns is one of the eight limits
    of the table, for the provider the model resolves to; it lies between
    96 and 2048, so the batcher never gets a limit that is zero or
    negative. *)
Theorem max_chunks_per_batch_bounds (self : nat) (w : World) (n : Z) :
  (_max_chunks_per_batch self w).1 = inr n ->
  96 <= n <= 2048 /\
  exists o resolved,
    heap w !! self = Some o /\
    Litellm.get_llm_provider (model o) = inr resolved /\
    (provider_of resolved, n) ∈
      [("cohere", 96); ("openai", 2048); ("azure", 1024); ("bedrock", 2048);
       ("huggingface", 1024); ("mistral", 1024); ("vertex", 1024); ("voyage", 128)].
Proof.
  destruct (heap w !! self) as [o |] eqn:Ho.
  - rewrite (max_chunks_run _ _ _ Ho). simpl.
    destruct (Litellm.get_llm_provider (model o)) as [e | resolved] eqn:Hres; [done |].
    destruct (provider_limit (provider_of resolved)) as [n' |] eqn:Hn; [| done].
    simpl. intros [= <-]. split.
    + revert Hn. unfold provider_limit. repeat case_decide; intros [= <-]; lia.
    + exists o, resolved. repeat split; try done.
      by apply provider_limit_listed.
  - unfold _max_chunks_per_batch. unfold_monad. by rewrite Ho.
Qed.

(** X10. The methods keep the store sound: if every cached batcher holds
    the table's limit for its instance's provider together with the bound
    method of that same instance, this is still so after [_batcher],
    [_max_chunks_per_batch] or [call_embed_api] on any instance. *)
Theorem methods_keep_cache_sound (w : World) (self : nat)
    (input : Litellm.Input) :
  cache_sound w ->
  cache_sound (_batcher self w).2 /\
  cache_sound (_max_chunks_per_batch self w).2 /\
  cache_sound (call_embed_api self input w).2.
Proof.
  intros Hsound. split; [by apply cache_sound_batcher |]. split.
  - eapply cache_sound_heap; [apply max_chunks_heap | done].
  - by apply cache_sound_call_embed_api.
Qed.

(** X11. The batcher built on the first access pairs the table's limit for
    the instance's provider with [call_embed_api] bound to that same
    instance; building it prints the model once and sends no request,
    writes no debug message and leaves the flag alone. *)
Theorem first_access_builds_own_batcher (self : nat) (w : World) (o : LiteLLM)
    (b : BatchApiCaller) (w1 : World) :
  heap w !! self = Some o ->
  _batcher_slot o = None ->
  _batcher self w = (inr b, w1) ->
  api_callable b = call_embed_api_of self /\
  (exists resolved,
     Litellm.get_llm_provider (model o) = inr resolved /\
     provider_limit (provider_of resolved) = Some (max_chunks_per_batch b)) /\
  stdout w1 = stdout w ++ ["model: " +:+ model o] /\
  requests w1 = requests w /\
  debug_log w1 = debug_log w /\
  suppress_debug_info w1 = suppress_debug_info w.
Proof.
  intros Ho Hslot Hrun.
  destruct (batcher_first_access _ _ _ _ _ Ho Hslot Hrun)
    as (resolved & n & Hres & Hn & -> & ->).
  repeat split; try done. by exists resolved.
Qed.

(** X12. Only [_batcher] is cached: every call of [_max_chunks_per_batch]
    itself, whether the instance already holds a batcher or not and whatever
    the outcome, prints the model and resolves the provider once more.
    Nothing else changes, except that a resolution the library fails writes
    the library's notice after the model line when the flag does not
    suppress it. *)
Theorem max_chunks_per_batch_resolves_each_time (self : nat) (w : World)
    (o : LiteLLM) :
  heap w !! self = Some o ->
  let w' := (_max_chunks_per_batch self w).2 in
  stdout w'
    = (stdout w ++ ["model: " +:+ model o])
      ++ match Litellm.get_llm_provider (model o) with
         | inl _ => if suppress_debug_info w then []
                    else Litellm.provider_list_notice (model o)
         | inr _ => []
         end /\
  resolutions w' = resolutions w ++ [model o] /\
  heap w' = heap w /\ requests w' = requests w /\
  debug_log w' = debug_log w /\
  suppress_debug_info w' = suppress_debug_info w.
Proof.
  intros Ho. simpl. rewrite (max_chunks_run _ _ _ Ho). simpl.
  destruct (Litellm.get_llm_provider (model o)) as [e | resolved]; [done |].
  destruct (provider_limit (provider_of resolved)); simpl;
    by rewrite app_nil_r.
Qed.

End Coverage.

(** * The further properties on concrete runs *)

Lemma call_embed_api_missing_embedding_key_witness :
  (call_embed_api (api := keyless_api) 0 (Litellm.InList ["a"])
     (boot "openai/text-embedding-3-small")).1 = inl (KeyError "embedding").
Proof.
  apply (call_embed_api_missing_embedding_key (api := keyless_api) 0
           (Litellm.InList ["a"]) (boot "openai/text-embedding-3-small")
           (fresh "openai/text-embedding-3-small")
           (Litellm.mkEmbeddingResponse [ {[ "index" := PyInt 0 ]} ] None)).
  - reflexivity.
  - reflexivity.
  - reflexivity.
  - apply Exists_cons_hd. reflexivity.
Defined.

Lemma call_embed_api_duplicate_keyword_witness :
  exists msg,
    call_embed_api (api := faithful_api "openai") 0 (Litellm.InList ["a"])
      (boot_with "openai/text-embedding-3-small" [("model", PyStr "other")])
    = (inl (TypeError msg),
       set_suppress_debug_info true
         (boot_with "openai/text-embedding-3-small" [("model", PyStr "other")])).
Proof.
  apply (call_embed_api_duplicate_keyword (api := faithful_api "openai") 0
           (Litellm.InList ["a"])
           (boot_with "openai/text-embedding-3-small" [("model", PyStr "other")])
           (mkLiteLLM "litellm" "openai/text-embedding-3-small" None
                      [("model", PyStr "other")] None)).
  - reflexivity.
  - reflexivity.
Defined.

Lemma call_embed_api_provider_error_witness :
  (call_embed_api (api := down_api) 0 (Litellm.InStr "a")
     (boot "openai/text-embedding-3-small")).1
  = inl (ExternalError "connection refused").
Proof.
  apply (call_embed_api_provider_error (api := down_api) 0 (Litellm.InStr "a")
           (boot "openai/text-embedding-3-small")
           (fresh "openai/text-embedding-3-small")
           (ExternalError "connection refused")).
  - reflexivity.
  - reflexivity.
  - reflexivity.
Defined.

Lemma call_embed_api_one_request_witness :
  exists o,
    heap (boot "openai/text-embedding-3-small") !! 0%nat = Some o /\
    requests (call_embed_api (api := faithful_api "openai") 0 (Litellm.InStr "a")
                (boot "openai/text-embedding-3-small")).2
    = requests (boot "openai/text-embedding-3-small")
      ++ [Litellm.mkRequest true (model o) (Litellm.InStr "a") (extra_options o)].
Proof.
  destruct (call_embed_api (api := faithful_api "openai") 0 (Litellm.InStr "a")
              (boot "openai/text-embedding-3-small")) as [[e | r] w'] eqn:Hrun.
  - vm_compute in Hrun. discriminate Hrun.
  - exact (call_embed_api_one_request (api := faithful_api "openai") 0
             (Litellm.InStr "a") (boot "openai/text-embedding-3-small") r w' Hrun).
Defined.

Lemma resolution_failure_propagates_witness :
  (embed (api := unresolvable_api) (batch_chunks_and_embed (api := unresolvable_api))
         0 ["a"] (boot "no-such-model")).1
    = inl (ExternalError "LLM Provider NOT provided") /\
  stdout (embed (api := unresolvable_api)
                (batch_chunks_and_embed (api := unresolvable_api))
                0 ["a"] (boot "no-such-model")).2
    = ["model: no-such-model"; "";
       "Provider List: https://docs.litellm.ai/docs/providers"; ""].
Proof.
  destruct (resolution_failure_propagates (api := unresolvable_api)
              (batch_chunks_and_embed (api := unresolvable_api))
              0 (boot "no-such-model") (fresh "no-such-model")
              (ExternalError "LLM Provider NOT provided") ["a"])
    as (_ & _ & Hembed & _).
  - apply cache_sound_boot.
  - reflexivity.
  - reflexivity.
  - rewrite Hembed. split; reflexivity.
Defined.

Lemma failed_access_is_not_cached_witness :
  resolutions (_batcher (api := faithful_api "unknown-xyz") 0
                 (_batcher (api := faithful_api "unknown-xyz") 0
                    (boot "unknown-xyz/model")).2).2
  = ["unknown-xyz/model"; "unknown-xyz/model"].
Proof.
  apply (failed_access_is_not_cached (api := faithful_api "unknown-xyz") 0
           (boot "unknown-xyz/model") (fresh "unknown-xyz/model")
           (UnknownProviderError "unknown-xyz")
           (_batcher (api := faithful_api "unknown-xyz") 0
              (boot "unknown-xyz/model")).2).
  - reflexivity.
  - reflexivity.
Defined.

Lemma max_chunks_per_batch_bounds_witness :
  96 <= 128 <= 2048.
Proof.
  apply (max_chunks_per_batch_bounds (api := faithful_api "voyage") 0
           (boot "voyage/voyage-3") 128).
  reflexivity.
Defined.

Lemma methods_keep_cache_sound_witness :
  cache_sound (api := faithful_api "openai")
    (_batcher (api := faithful_api "openai") 0
       (boot "openai/text-embedding-3-small")).2.
Proof.
  apply (methods_keep_cache_sound (api := faithful_api "openai")
           (boot "openai/text-embedding-3-small") 0 (Litellm.InList [])).
  apply cache_sound_boot.
Defined.

Lemma first_access_builds_own_batcher_witness :
  api_callable (mkBatchApiCaller 2048 (call_embed_api_of 0)) = call_embed_api_of 0 /\
  stdout (_batcher (api := faithful_api "openai") 0
            (boot "openai/text-embedding-3-small")).2
  = [] ++ ["model: " +:+ "openai/text-embedding-3-small"].
Proof.
  destruct (first_access_builds_own_batcher (api := faithful_api "openai") 0
              (boot "openai/text-embedding-3-small")
              (fresh "openai/text-embedding-3-small")
              (mkBatchApiCaller 2048 (call_embed_api_of 0))
              (_batcher (api := faithful_api "openai") 0
                 (boot "openai/text-embedding-3-small")).2)
    as (Hcall & _ & Hout & _).
  - reflexivity.
  - reflexivity.
  - reflexivity.
  - split; [exact Hcall | exact Hout].
Defined.

Lemma max_chunks_per_batch_resolves_each_time_witness :
  resolutions (_max_chunks_per_batch (api := faithful_api "openai") 0
                 (_batcher (api := faithful_api "openai") 0
                    (boot "openai/text-embedding-3-small")).2).2
  = ["openai/text-embedding-3-small"; "openai/text-embedding-3-small"].
Proof.
  apply (max_chunks_per_batch_resolves_each_time (api := faithful_api "openai") 0
           (_batcher (api := faithful_api "openai") 0
              (boot "openai/text-embedding-3-small")).2
           (store_batcher (mkBatchApiCaller 2048 (call_embed_api_of 0))
              (fresh "openai/text-embedding-3-small"))).
  reflexivity.
Defined.
